(** * Search-Engine crawler: robots rules, politeness, fetching and the crawl loops

    A shallow embedding of the crawler sources
      - [src/crawler/robots_parser.py]                      (module [robots_parser])
      - [src/crawler/crawler_policies/politeness_policy.py] (module [politeness_policy])
      - [src/crawler/page_fetcher.py]                       (module [page_fetcher])
      - [src/crawler/crawler_manager.py]                    (module [crawler_manager])
    followed by the properties of the crawler specification, each stated on
    these definitions.

    Conventions.  Python [str] values are modelled as [string] (sequences of
    8-bit characters; the whitespace and line-break classes are the ASCII part
    of Python's).  Python dictionaries are [gmap]s, wall-clock time and delays
    are integers counted in seconds (Python uses floats; rounding is not
    modelled).  A Python exception is an explicit [Raise] result. *)

From Stdlib Require Import ZArith String Ascii List Lia Bool.
From stdpp Require Import gmap strings list fin_maps.

Open Scope string_scope.
Open Scope Z_scope.

(** ** Results of calls that may raise *)

Inductive exn : Type :=
| ValueError          (* int() / float() on a malformed literal *)
| UnboundLocalError   (* a local read before its first assignment *)
| RuntimeError        (* raised by politeness_policy.RobotsParser.fetch_robots_txt *)
| RequestException    (* requests: connection failure, HTTPError, ... *)
| ReError.            (* re.error: the pattern does not compile *)

Inductive result (A : Type) : Type :=
| Ok (a : A)
| Raise (e : exn).
Arguments Ok {A} a.
Arguments Raise {A} e.

(** ** The Python string methods the crawler uses *)

Module Py.

(** [str.isspace] on one character (ASCII part): TAB..CR, FS..US, SPACE. *)
Definition is_space (c : ascii) : bool :=
  let n := nat_of_ascii c in
  ((9 <=? n)%nat && (n <=? 13)%nat) || ((28 <=? n)%nat && (n <=? 32)%nat).

Fixpoint lstrip (s : string) : string :=
  match s with
  | EmptyString => EmptyString
  | String c s' => if is_space c then lstrip s' else s
  end.

Fixpoint rstrip (s : string) : string :=
  match s with
  | EmptyString => EmptyString
  | String c s' =>
      match rstrip s' with
      | EmptyString => if is_space c then EmptyString else String c EmptyString
      | r => String c r
      end
  end.

(** [s.strip()] *)
Definition strip (s : string) : string := rstrip (lstrip s).

Definition lower_char (c : ascii) : ascii :=
  let n := nat_of_ascii c in
  if ((65 <=? n)%nat && (n <=? 90)%nat) then ascii_of_nat (n + 32) else c.

(** [s.lower()] *)
Fixpoint lower (s : string) : string :=
  match s with
  | EmptyString => EmptyString
  | String c s' => String (lower_char c) (lower s')
  end.

(** [s.startswith(p)] *)
Definition startswith (s p : string) : bool := String.prefix p s.

(** Truth value of a string: non-empty. *)
Definition truthy (s : string) : bool :=
  match s with EmptyString => false | _ => true end.

(** Line boundaries of [str.splitlines] (ASCII part): LF, VT, FF, CR, FS, GS, RS. *)
Definition is_linebreak (c : ascii) : bool :=
  let n := nat_of_ascii c in
  ((10 <=? n)%nat && (n <=? 13)%nat) || ((28 <=? n)%nat && (n <=? 30)%nat).

Definition snoc (s : string) (c : ascii) : string := s ++ String c EmptyString.

(** [cur] is the line read so far, [open] tells whether a line is pending
    (a final line without terminator is kept, a final terminator adds none). *)
Fixpoint splitlines_from (cur : string) (open : bool) (s : string) : list string :=
  match s with
  | EmptyString => if open then [cur] else []
  | String c s' =>
      if is_linebreak c then
        match s' with
        | String d s'' =>
            if ((nat_of_ascii c =? 13)%nat && (nat_of_ascii d =? 10)%nat)
            then cur :: splitlines_from EmptyString false s''
            else cur :: splitlines_from EmptyString false s'
        | EmptyString => [cur]
        end
      else splitlines_from (snoc cur c) true s'
  end.

(** [s.splitlines()] *)
Definition splitlines (s : string) : list string := splitlines_from EmptyString false s.

(** [s.split(sep)] for a one-character separator. *)
Fixpoint split_from (sep : ascii) (cur : string) (s : string) : list string :=
  match s with
  | EmptyString => [cur]
  | String c s' =>
      if Ascii.eqb c sep then cur :: split_from sep EmptyString s'
      else split_from sep (snoc cur c) s'
  end.

Definition split (sep : ascii) (s : string) : list string := split_from sep EmptyString s.

(** The text after the first [sep], if there is one: [s.split(sep, 1)[1]]. *)
Fixpoint after_first (sep : ascii) (s : string) : option string :=
  match s with
  | EmptyString => None
  | String c s' => if Ascii.eqb c sep then Some s' else after_first sep s'
  end.

(** [s.split(sep, 1)]: at most one cut. *)
Definition split1 (sep : ascii) (s : string) : list string :=
  match split sep s, after_first sep s with
  | hd :: _, Some tl => [hd; tl]
  | _, _ => [s]
  end.

(** [l[1]]; out of range is an IndexError, which no caller below can reach
    (every caller has checked that the line contains a colon). *)
Definition item1 (l : list string) : string := nth 1%nat l EmptyString.

Definition is_digit (c : ascii) : bool :=
  let n := nat_of_ascii c in (48 <=? n)%nat && (n <=? 57)%nat.

Definition is_alpha (c : ascii) : bool :=
  let n := nat_of_ascii c in
  ((65 <=? n)%nat && (n <=? 90)%nat) || ((97 <=? n)%nat && (n <=? 122)%nat).

Definition digit_val (c : ascii) : Z := Z.of_nat (nat_of_ascii c) - 48.

(** Decimal digits with single underscores between digits, as [int] accepts;
    [acc] is the value so far, [prev_digit] whether the last character was a digit. *)
Fixpoint digits (acc : Z) (prev_digit : bool) (s : string) : option Z :=
  match s with
  | EmptyString => if prev_digit then Some acc else None
  | String c s' =>
      if is_digit c then digits (10 * acc + digit_val c) true s'
      else if (Ascii.eqb c "_" && prev_digit)%bool then
             match s' with
             | String d _ => if is_digit d then digits acc false s' else None
             | EmptyString => None
             end
           else None
  end.

(** [int(s)] in base ten: surrounding whitespace, an optional sign, digits.
    [None] is the [ValueError] case. *)
Definition int (s : string) : option Z :=
  match strip s with
  | String "+" r => digits 0 false r
  | String "-" r => option_map Z.opp (digits 0 false r)
  | r => digits 0 false r
  end.

End Py.

(** ** Regular expressions: [re.escape] and [re.match]

    The robots parser stores [re.escape(path)] and later calls
    [re.match(rule, path)].  The fragment of the pattern language modelled
    here has literals, backslash escapes of non-alphanumeric characters, the
    wildcard [.], the anchors [^] and [$] and the repetitions [*], [+], [?].
    A pattern outside the fragment (groups, classes, alternation, counted
    repetition, letter or digit escapes) or one that [re.compile] rejects
    yields [None]. *)

Module Re.

Inductive atom : Type :=
| Lit (c : ascii)   (* this character *)
| AnyChar           (* [.]: any character but a newline *)
| Bol               (* [^]: start of the subject *)
| Eol.              (* [$]: end of the subject, or just before a final newline *)

Inductive quant : Type := One | Star | Plus | Opt.

Inductive token : Type :=
| TAtom (a : atom)
| TQuant (q : quant).

Definition item : Type := atom * quant.

(** The characters [re.escape] protects (Python 3.7 and later). *)
Definition special_chars : string :=
  "()[]{}?*+-|^$\.&~# " ++
  String (ascii_of_nat 9) (String (ascii_of_nat 10) (String (ascii_of_nat 13)
    (String (ascii_of_nat 11) (String (ascii_of_nat 12) EmptyString)))).

Fixpoint mem (c : ascii) (s : string) : bool :=
  match s with
  | EmptyString => false
  | String d s' => Ascii.eqb c d || mem c s'
  end.

Definition is_special (c : ascii) : bool := mem c special_chars.

(** [re.escape(s)] *)
Fixpoint escape (s : string) : string :=
  match s with
  | EmptyString => EmptyString
  | String c s' =>
      if is_special c then String "\" (String c (escape s'))
      else String c (escape s')
  end.

(** One unescaped pattern character. *)
Definition classify (c : ascii) : option token :=
  if Ascii.eqb c "." then Some (TAtom AnyChar)
  else if Ascii.eqb c "^" then Some (TAtom Bol)
  else if Ascii.eqb c "$" then Some (TAtom Eol)
  else if Ascii.eqb c "*" then Some (TQuant Star)
  else if Ascii.eqb c "+" then Some (TQuant Plus)
  else if Ascii.eqb c "?" then Some (TQuant Opt)
  else if mem c "()[{|" then None
  else Some (TAtom (Lit c)).

Fixpoint tokens (p : string) : option (list token) :=
  match p with
  | EmptyString => Some []
  | String c p' =>
      if Ascii.eqb c "\" then
        match p' with
        | EmptyString => None                       (* bad escape (end of pattern) *)
        | String d p'' =>
            if Py.is_alpha d || Py.is_digit d then None
            else option_map (cons (TAtom (Lit d))) (tokens p'')
        end
      else
        match classify c with
        | Some t => option_map (cons t) (tokens p')
        | None => None
        end
  end.

Definition is_anchor (a : atom) : bool :=
  match a with Bol | Eol => true | _ => false end.

(** Attach each repetition to the atom before it. *)
Fixpoint items (ts : list token) : option (list item) :=
  match ts with
  | [] => Some []
  | TQuant _ :: _ => None                           (* nothing to repeat *)
  | TAtom a :: TQuant q :: ts' =>
      match ts' with
      | TQuant _ :: _ => None                       (* non-greedy forms, multiple repeat *)
      | _ => if is_anchor a then None else option_map (cons (a, q)) (items ts')
      end
  | TAtom a :: ts' => option_map (cons (a, One)) (items ts')
  end.

(** [re.compile] *)
Definition compile (p : string) : option (list item) :=
  match tokens p with
  | Some ts => items ts
  | None => None
  end.

Definition accepts (a : atom) (c : ascii) : bool :=
  match a with
  | Lit d => Ascii.eqb c d
  | AnyChar => negb (nat_of_ascii c =? 10)%nat
  | Bol | Eol => false
  end.

Definition at_end (s : string) : bool :=
  match s with
  | EmptyString => true
  | String c EmptyString => (nat_of_ascii c =? 10)%nat
  | _ => false
  end.

(** Does some prefix of [s] match the items?  [start] tells whether [s]
    still begins at the start of the subject. *)
Fixpoint matches (its : list item) (start : bool) (s : string) {struct its} : bool :=
  match its with
  | [] => true
  | (a, q) :: rest =>
      let one :=
        match a with
        | Bol => start && matches rest start s
        | Eol => at_end s && matches rest start s
        | _ => match s with
               | String c s' => accepts a c && matches rest false s'
               | EmptyString => false
               end
        end in
      let many :=
        (fix many (start : bool) (s : string) {struct s} : bool :=
           matches rest start s ||
           match s with
           | String c s' => accepts a c && many false s'
           | EmptyString => false
           end) in
      match q with
      | One => one
      | Opt => matches rest start s || one
      | Star => many start s
      | Plus => match s with
                | String c s' => accepts a c && many false s'
                | EmptyString => false
                end
      end
  end.

(** [re.match(pattern, subject)]: [Some true] when it returns a match
    object, [Some false] when it returns [None]; [None] when the pattern
    does not compile or lies outside the fragment. *)
Definition match_ (pattern subject : string) : option bool :=
  match compile pattern with
  | Some its => Some (matches its true subject)
  | None => None
  end.

End Re.

(** ** The outside world: a clock and a network

    [time.time()] reads the clock, [time.sleep(d)] advances it, and an HTTP GET
    is answered by the environment [net], which may look at the whole world
    (the time, the requests made so far).  Every request and every sleep is
    logged in chronological order. *)

Inductive Outcome : Type :=
| Response (status : Z) (text : string)
| ConnectionError      (* also DNS failure, connection refused *)
| Timeout
| TooManyRedirects.

Record World : Type := mkWorld {
  clock : Z;
  requested : list (Z * string);   (* (time, url) of every GET issued *)
  slept : list Z                   (* every argument passed to time.sleep *)
}.

Definition Net : Type := World → string → Outcome.

Definition IO (A : Type) : Type := World → A * World.

#[export] Instance IO_ret : MRet IO := λ A a w, (a, w).
#[export] Instance IO_bind : MBind IO := λ A B f m w, let '(a, w') := m w in f a w'.

Definition time_time : IO Z := λ w, (clock w, w).

Definition time_sleep (d : Z) : IO unit :=
  λ w, (tt, {| clock := clock w + d; requested := requested w; slept := (slept w ++ [d])%list |}).

(** [requests.get(url, ...)], also used for [urllib.request.urlopen(url)]. *)
Definition http_get (net : Net) (url : string) : IO Outcome :=
  λ w, (net w url,
        {| clock := clock w; requested := (requested w ++ [(clock w, url)])%list; slept := slept w |}).

Definition world0 : World := {| clock := 0; requested := []; slept := [] |}.

(** The URLs requested so far, oldest first. *)
Definition requested_urls (w : World) : list string := (requested w).*2.

(** ** [urllib.parse]

    [urlparse] and [urljoin] are library code; the crawler definitions below
    take the three components they read as functions.  [Url.simple] is the
    instance used in the worked examples: it agrees with [urlparse] on URLs of
    the form [scheme://netloc/path], optionally followed by [?query] or
    [#fragment], whose path has no [;parameters]. *)

Record UrlLib : Type := mkUrlLib {
  url_scheme : string → string;
  url_netloc : string → string;
  url_path : string → string
}.

Module Url.

(** Split at the first occurrence of ["://"]. *)
Fixpoint cut_scheme (acc : string) (s : string) : option (string * string) :=
  match s with
  | String ":" (String "/" (String "/" rest)) => Some (acc, rest)
  | String c s' => cut_scheme (Py.snoc acc c) s'
  | EmptyString => None
  end.

(** The longest prefix without any character of [stops], and what follows. *)
Fixpoint span (stops : string) (acc : string) (s : string) : string * string :=
  match s with
  | EmptyString => (acc, EmptyString)
  | String c s' => if Re.mem c stops then (acc, s) else span stops (Py.snoc acc c) s'
  end.

Definition scheme (u : string) : string :=
  match cut_scheme EmptyString u with Some (sch, _) => Py.lower sch | None => EmptyString end.

Definition netloc (u : string) : string :=
  match cut_scheme EmptyString u with
  | Some (_, rest) => (span "/?#" EmptyString rest).1
  | None => EmptyString
  end.

Definition path (u : string) : string :=
  match cut_scheme EmptyString u with
  | Some (_, rest) => (span "?#" EmptyString (span "/?#" EmptyString rest).2).1
  | None => (span "?#" EmptyString u).1
  end.

Definition simple : UrlLib :=
  {| url_scheme := scheme; url_netloc := netloc; url_path := path |}.

End Url.

(** ** [src/crawler/robots_parser.py] *)

Module robots_parser.

Record RobotsParser : Type := mkRobotsParser {
  user_agent : string;
  rules : gmap string (list string);   (* keys 'allow' and 'disallow' *)
  sitemaps : list string;
  crawl_delay : option Z
}.

(** [RobotsParser(user_agent)]; the default argument is ["*"]. *)
Definition init (ua : string) : RobotsParser :=
  {| user_agent := ua; rules := ∅; sitemaps := []; crawl_delay := None |}.

(** [if key not in rules: rules[key] = []] then [rules[key].append(v)] *)
Definition rules_append (key v : string) (r : gmap string (list string))
  : gmap string (list string) :=
  <[key := (default [] (r !! key) ++ [v])%list]> r.

Definition set_rules (self : RobotsParser) (r : gmap string (list string)) : RobotsParser :=
  {| user_agent := user_agent self; rules := r;
     sitemaps := sitemaps self; crawl_delay := crawl_delay self |}.

Definition set_crawl_delay (self : RobotsParser) (d : option Z) : RobotsParser :=
  {| user_agent := user_agent self; rules := rules self;
     sitemaps := sitemaps self; crawl_delay := d |}.

Definition add_sitemap (self : RobotsParser) (s : string) : RobotsParser :=
  {| user_agent := user_agent self; rules := rules self;
     sitemaps := (sitemaps self ++ [s])%list; crawl_delay := crawl_delay self |}.

(** The value of a [key: value] line: [line.split(':', 1)[1].strip()]. *)
Definition value_of (line : string) : string :=
  Py.strip (Py.item1 (Py.split1 ":" line)).

(** [_parse_rule(self, line)].  When it raises, [self] is as it was. *)
Definition _parse_rule (self : RobotsParser) (line : string) : result RobotsParser :=
  if Py.startswith (Py.lower line) "disallow:" then
    let path := value_of line in
    if Py.truthy path
    then Ok (set_rules self (rules_append "disallow" (Re.escape path) (rules self)))
    else Ok self
  else if Py.startswith (Py.lower line) "allow:" then
    let path := value_of line in
    if Py.truthy path
    then Ok (set_rules self (rules_append "allow" (Re.escape path) (rules self)))
    else Ok self
  else if Py.startswith (Py.lower line) "crawl-delay:" then
    match Py.int (value_of line) with
    | Some n => Ok (set_crawl_delay self (Some n))
    | None => Raise ValueError
    end
  else Ok self.

(** [current_user_agent and (self.user_agent == '*' or
     current_user_agent == self.user_agent)] *)
Definition group_applies (self : RobotsParser) (current_user_agent : option string) : bool :=
  match current_user_agent with
  | None => false
  | Some cua =>
      Py.truthy cua && (String.eqb (user_agent self) "*" || String.eqb cua (user_agent self))
  end.

(** The loop of [parse_robots] over the lines that remain.  The parser
    object is mutated in place, so when a line raises the object keeps what
    the earlier lines did to it: the first component is the object at exit. *)
Fixpoint parse_lines (self : RobotsParser) (current_user_agent : option string)
    (lines : list string) : RobotsParser * result unit :=
  match lines with
  | [] => (self, Ok tt)
  | raw :: rest =>
      let line := Py.strip raw in
      if negb (Py.truthy line) || Py.startswith line "#" then
        parse_lines self current_user_agent rest
      else if Py.startswith (Py.lower line) "user-agent:" then
        parse_lines self (Some (Py.strip (Py.item1 (Py.split ":" line)))) rest
      else if group_applies self current_user_agent then
        match _parse_rule self line with
        | Ok self' => parse_lines self' current_user_agent rest
        | Raise e => (self, Raise e)
        end
      else if Py.startswith (Py.lower line) "sitemap:" then
        parse_lines (add_sitemap self (value_of line)) current_user_agent rest
      else parse_lines self current_user_agent rest
  end.

(** [parse_robots(self, robots_text)] *)
Definition parse_robots (self : RobotsParser) (robots_text : string)
  : RobotsParser * result unit :=
  parse_lines self None (Py.splitlines robots_text).

(** [for rule in rules: if re.match(rule, path): return ...]:
    [Ok true] when some rule matches, the rules being tried in order.
    Stored rules are escaped values, for which [Re.match_] is never [None]. *)
Fixpoint some_rule_matches (rules : list string) (path : string) : result bool :=
  match rules with
  | [] => Ok false
  | rule :: rest =>
      match Re.match_ rule path with
      | None => Raise ReError
      | Some true => Ok true
      | Some false => some_rule_matches rest path
      end
  end.

Definition rules_of (self : RobotsParser) (key : string) : list string :=
  default [] (rules self !! key).

(** [is_allowed(self, url)] *)
Definition is_allowed (lib : UrlLib) (self : RobotsParser) (url : string) : result bool :=
  let path := url_path lib url in
  match some_rule_matches (rules_of self "allow") path with
  | Raise e => Raise e
  | Ok true => Ok true
  | Ok false =>
      match some_rule_matches (rules_of self "disallow") path with
      | Raise e => Raise e
      | Ok true => Ok false
      | Ok false => Ok true
      end
  end.

Definition get_crawl_delay (self : RobotsParser) : option Z := crawl_delay self.

(** [fetch_robots(self, base_url)]; [robots_url] is
    [urljoin(base_url, "/robots.txt")].  Only [requests.RequestException] is
    caught, so an exception of the parser leaves the method. *)
Definition fetch_robots (net : Net) (self : RobotsParser) (robots_url : string)
  : IO (RobotsParser * result unit) :=
  resp ← http_get net robots_url;
  match resp with
  | Response status text =>
      if status =? 200 then mret (parse_robots self text)
      else mret (self, Ok tt)
  | _ => mret (self, Ok tt)
  end.

End robots_parser.

(** ** [src/crawler/crawler_policies/politeness_policy.py] *)

Module politeness_policy.

Record RobotsParser : Type := mkRobotsParser {
  rp_user_agent : string;
  disallowed_paths : list string;
  crawl_delay : option Z
}.

Record PolitenessPolicy : Type := mkPolitenessPolicy {
  user_agent : string;
  delay : Z;
  last_access_times : gmap string Z;
  robots_cache : gmap string RobotsParser
}.

(** [PolitenessPolicy(user_agent, delay)] *)
Definition init (ua : string) (d : Z) : PolitenessPolicy :=
  {| user_agent := ua; delay := d; last_access_times := ∅; robots_cache := ∅ |}.

Definition add_disallowed (self : RobotsParser) (p : string) : RobotsParser :=
  {| rp_user_agent := rp_user_agent self;
     disallowed_paths := (disallowed_paths self ++ [p])%list;
     crawl_delay := crawl_delay self |}.

Definition set_crawl_delay (self : RobotsParser) (d : option Z) : RobotsParser :=
  {| rp_user_agent := rp_user_agent self;
     disallowed_paths := disallowed_paths self;
     crawl_delay := d |}.

Definition value_of (line : string) : string :=
  Py.strip (Py.item1 (Py.split1 ":" line)).

Section Parser.

(** [float(s)], [None] when it raises [ValueError].  The literal syntax of
    floats is the library's; the value is kept in seconds. *)
Variable float : string → option Z.

(** The loop of [parse_robots_txt].  The local [applicable] is unbound
    ([None]) until the first [User-agent:] line; reading it before that
    raises [UnboundLocalError]. *)
Fixpoint parse_lines (self : RobotsParser) (applicable : option bool)
    (lines : list string) : RobotsParser * result unit :=
  match lines with
  | [] => (self, Ok tt)
  | raw :: rest =>
      let line := Py.strip raw in
      if negb (Py.truthy line) || Py.startswith line "#" then
        parse_lines self applicable rest
      else if Py.startswith (Py.lower line) "user-agent:" then
        let current_agent := value_of line in
        parse_lines self
          (Some (String.eqb current_agent "*" || String.eqb current_agent (rp_user_agent self)))
          rest
      else
        match applicable with
        | None => (self, Raise UnboundLocalError)
        | Some true =>
            if Py.startswith (Py.lower line) "disallow:" then
              let path := value_of line in
              if Py.truthy path
              then parse_lines (add_disallowed self path) applicable rest
              else parse_lines self applicable rest
            else if Py.startswith (Py.lower line) "crawl-delay:" then
              match float (value_of line) with
              | Some d => parse_lines (set_crawl_delay self (Some d)) applicable rest
              | None => (self, Raise ValueError)
              end
            else parse_lines self applicable rest
        | Some false => parse_lines self applicable rest
        end
  end.

(** [parse_robots_txt(self, robots_txt_content)] *)
Definition parse_robots_txt (self : RobotsParser) (robots_txt_content : string)
  : RobotsParser * result unit :=
  parse_lines self None (Py.splitlines robots_txt_content).

Variable net : Net.

(** [make_request(self, url)]: a plain [requests.get]. *)
Definition make_request (url : string) : IO Outcome := http_get net url.

(** [fetch_robots_txt(self, robots_url)]: whatever goes wrong inside the
    [try], in the request or in the parser, is re-raised as [RuntimeError]. *)
Definition fetch_robots_txt (self : RobotsParser) (robots_url : string)
  : IO (RobotsParser * result unit) :=
  resp ← make_request robots_url;
  match resp with
  | Response status text =>
      if status =? 200 then
        match parse_robots_txt self text with
        | (self', Ok _) => mret (self', Ok tt)
        | (self', Raise _) => mret (self', Raise RuntimeError)
        end
      else mret (self, Ok tt)
  | _ => mret (self, Raise RuntimeError)
  end.

(** [RobotsParser(robots_url, user_agent)]: the constructor returns the
    object only when [fetch_robots_txt] does not raise. *)
Definition RobotsParser_init (robots_url ua : string) : IO (result RobotsParser) :=
  r ← fetch_robots_txt
         {| rp_user_agent := ua; disallowed_paths := []; crawl_delay := None |} robots_url;
  match r with
  | (self, Ok _) => mret (Ok self)
  | (_, Raise e) => mret (Raise e)
  end.

Variable lib : UrlLib.

(** [RobotsParser.can_fetch(self, user_agent, url)] *)
Definition rp_can_fetch (self : RobotsParser) (ua url : string) : bool :=
  negb (existsb (Py.startswith (url_path lib url)) (disallowed_paths self)).

Definition get_crawl_delay (self : RobotsParser) : option Z := crawl_delay self.

Definition robots_url_of (url : string) : string :=
  url_scheme lib url ++ "://" ++ url_netloc lib url ++ "/robots.txt".

Definition cache_robots (self : PolitenessPolicy) (host : string) (rp : RobotsParser)
  : PolitenessPolicy :=
  {| user_agent := user_agent self; delay := delay self;
     last_access_times := last_access_times self;
     robots_cache := <[host := rp]> (robots_cache self) |}.

(** [PolitenessPolicy.can_fetch(self, url)] *)
Definition can_fetch (self : PolitenessPolicy) (url : string)
  : IO (PolitenessPolicy * bool) :=
  let host := url_netloc lib url in
  match robots_cache self !! host with
  | Some rp => mret (self, rp_can_fetch rp (user_agent self) url)
  | None =>
      r ← RobotsParser_init (robots_url_of url) (user_agent self);
      match r with
      | Ok rp => mret (cache_robots self host rp, rp_can_fetch rp (user_agent self) url)
      | Raise _ => mret (self, true)
      end
  end.

Definition touch (self : PolitenessPolicy) (host : string) (t : Z) : PolitenessPolicy :=
  {| user_agent := user_agent self; delay := delay self;
     last_access_times := <[host := t]> (last_access_times self);
     robots_cache := robots_cache self |}.

(** [PolitenessPolicy.respect_delay(self, url)] *)
Definition respect_delay (self : PolitenessPolicy) (url : string) : IO PolitenessPolicy :=
  let host := url_netloc lib url in
  current_time ← time_time;
  _ ← match last_access_times self !! host with
      | Some last =>
          let elapsed_time := current_time - last in
          if elapsed_time <? delay self
          then time_sleep (delay self - elapsed_time)
          else mret tt
      | None => mret tt
      end;
  mret (touch self host current_time).

(** [PolitenessManager.fetch_page(self, url)]; the manager holds the
    policy object, whose state is threaded through. *)
Definition fetch_page (policy : PolitenessPolicy) (url : string)
  : IO (PolitenessPolicy * option string) :=
  r ← can_fetch policy url;
  let '(policy, allowed) := r in
  if negb allowed then mret (policy, None)
  else
    policy ← respect_delay policy url;
    resp ← make_request url;
    match resp with
    | Response status content =>
        if status =? 200 then mret (policy, Some content) else mret (policy, None)
    | _ => mret (policy, None)
    end.

(** The usage loop of the module: [for url in urls: manager.fetch_page(url)]. *)
Fixpoint fetch_pages (policy : PolitenessPolicy) (urls : list string)
  : IO PolitenessPolicy :=
  match urls with
  | [] => mret policy
  | url :: rest =>
      r ← fetch_page policy url;
      fetch_pages r.1 rest
  end.

End Parser.

End politeness_policy.

(** ** [src/crawler/page_fetcher.py] *)

Module page_fetcher.

(** [urllib.robotparser.RobotFileParser], the part [PageFetcher] relies on:
    [read()] keeps an HTTP error to itself (401 and 403 set [disallow_all],
    the other 4xx set [allow_all], any other error status leaves the parser
    unread) and lets only a failure to connect escape; [can_fetch] looks at the two
    flags, then refuses while nothing has been read, and only then matches
    the rules. *)
Record RobotFileParser : Type := mkRobotFileParser {
  disallow_all : bool;
  allow_all : bool;
  last_checked : bool;     (* has a robots.txt body been parsed? *)
  body : string
}.

Record PageFetcher : Type := mkPageFetcher {
  user_agent : string;
  timeout : Z;
  max_retries : Z;
  visited_urls : gset string;
  robots_cache : gmap string RobotFileParser
}.

(** [PageFetcher(user_agent, timeout=10, max_retries=3)] *)
Definition init (ua : string) (tmo retries : Z) : PageFetcher :=
  {| user_agent := ua; timeout := tmo; max_retries := retries;
     visited_urls := ∅; robots_cache := ∅ |}.

Definition cache_robots (self : PageFetcher) (key : string) (rp : RobotFileParser)
  : PageFetcher :=
  {| user_agent := user_agent self; timeout := timeout self;
     max_retries := max_retries self; visited_urls := visited_urls self;
     robots_cache := <[key := rp]> (robots_cache self) |}.

(** [add_visited(self, url)] *)
Definition add_visited (self : PageFetcher) (url : string) : PageFetcher :=
  {| user_agent := user_agent self; timeout := timeout self;
     max_retries := max_retries self; visited_urls := {[url]} ∪ visited_urls self;
     robots_cache := robots_cache self |}.

(** [has_visited(self, url)] *)
Definition has_visited (self : PageFetcher) (url : string) : bool :=
  bool_decide (url ∈ visited_urls self).

(** [response.raise_for_status()] raises for 4xx and 5xx. *)
Definition is_error_status (status : Z) : bool := (400 <=? status) && (status <? 600).

Section Fetcher.

Variable net : Net.
Variable lib : UrlLib.

(** How [RobotFileParser] matches a parsed robots.txt body against a user
    agent and a URL (library code, not modelled further). *)
Variable rules_can_fetch : string → string → string → bool.

(** [rp.read()] on a fresh parser. *)
Definition rfp_read (robots_url : string) : IO (result RobotFileParser) :=
  resp ← http_get net robots_url;
  match resp with
  | Response status text =>
      if (200 <=? status) && (status <? 300) then
        mret (Ok {| disallow_all := false; allow_all := false;
                    last_checked := true; body := text |})
      else if (status =? 401) || (status =? 403) then
        mret (Ok {| disallow_all := true; allow_all := false;
                    last_checked := false; body := EmptyString |})
      else if (400 <=? status) && (status <? 500) then
        mret (Ok {| disallow_all := false; allow_all := true;
                    last_checked := false; body := EmptyString |})
      else
        mret (Ok {| disallow_all := false; allow_all := false;
                    last_checked := false; body := EmptyString |})
  | TooManyRedirects =>                          (* urllib reports it as an HTTPError 3xx *)
      mret (Ok {| disallow_all := false; allow_all := false;
                  last_checked := false; body := EmptyString |})
  | ConnectionError | Timeout => mret (Raise RequestException)   (* URLError *)
  end.

(** [rp.can_fetch(useragent, url)] *)
Definition rfp_can_fetch (rp : RobotFileParser) (ua url : string) : bool :=
  if disallow_all rp then false
  else if allow_all rp then true
  else if negb (last_checked rp) then false
  else rules_can_fetch (body rp) ua url.

Definition robots_url_of (url : string) : string :=
  url_scheme lib url ++ "://" ++ url_netloc lib url ++ "/robots.txt".

(** [is_allowed_by_robots(self, url)] *)
Definition is_allowed_by_robots (self : PageFetcher) (url : string)
  : IO (PageFetcher * bool) :=
  let base_url := robots_url_of url in
  match robots_cache self !! base_url with
  | Some rp => mret (self, rfp_can_fetch rp (user_agent self) url)
  | None =>
      r ← rfp_read base_url;
      match r with
      | Ok rp => mret (cache_robots self base_url rp, rfp_can_fetch rp (user_agent self) url)
      | Raise _ => mret (self, true)
      end
  end.

(** The [while attempt < self.max_retries] loop of [fetch]; [remaining] is
    [max_retries - attempt], the number of iterations still allowed. *)
Fixpoint fetch_attempts (remaining : nat) (attempt : Z) (url : string)
  : IO (option string) :=
  match remaining with
  | O => mret None
  | S remaining' =>
      resp ← http_get net url;
      match resp with
      | Response status text =>
          if is_error_status status then
            _ ← time_sleep (2 ^ (attempt + 1));
            fetch_attempts remaining' (attempt + 1) url
          else mret (Some text)
      | _ =>
          _ ← time_sleep (2 ^ (attempt + 1));
          fetch_attempts remaining' (attempt + 1) url
      end
  end.

(** [fetch(self, url)] *)
Definition fetch (self : PageFetcher) (url : string) : IO (PageFetcher * option string) :=
  r ← is_allowed_by_robots self url;
  let '(self, allowed) := r in
  if negb allowed then mret (self, None)
  else
    content ← fetch_attempts (Z.to_nat (max_retries self)) 0 url;
    mret (self, content).

(** [extract_links(page_content)]: the [href]s of the anchors
    (BeautifulSoup), and [normalize_url = urljoin]. *)
Variable extract_links : string → list string.
Variable urljoin : string → string → string.

(** [for link in links: ... urls_to_visit.append((absolute_link, depth + 1))] *)
Fixpoint enqueue_links (self : PageFetcher) (current_url : string) (depth : Z)
    (links : list string) (urls_to_visit : list (string * Z)) : list (string * Z) :=
  match links with
  | [] => urls_to_visit
  | link :: rest =>
      let absolute_link := urljoin current_url link in
      if bool_decide (absolute_link ∈ visited_urls self)
      then enqueue_links self current_url depth rest urls_to_visit
      else enqueue_links self current_url depth rest
             (urls_to_visit ++ [(absolute_link, depth + 1)])%list
  end.

(** One iteration of the [while urls_to_visit] loop of [crawl], the entry
    [(current_url, depth)] having been popped from the front. *)
Definition crawl_visit (max_depth : Z) (self : PageFetcher) (current_url : string)
    (depth : Z) (urls_to_visit : list (string * Z))
  : IO (PageFetcher * list (string * Z)) :=
  if (max_depth <? depth) || has_visited self current_url then mret (self, urls_to_visit)
  else
    r ← fetch self current_url;
    let '(self, page_content) := r in
    match page_content with
    | None => mret (self, urls_to_visit)
    | Some page =>
        let self := add_visited self current_url in
        mret (self, enqueue_links self current_url depth (extract_links page) urls_to_visit)
    end.

(** The loop of [crawl]; [None] when [fuel] iterations did not empty the list. *)
Fixpoint crawl_loop (fuel : nat) (max_depth : Z) (self : PageFetcher)
    (urls_to_visit : list (string * Z)) : IO (option PageFetcher) :=
  match fuel with
  | O => mret None
  | S fuel' =>
      match urls_to_visit with
      | [] => mret (Some self)
      | (current_url, depth) :: rest =>
          r ← crawl_visit max_depth self current_url depth rest;
          crawl_loop fuel' max_depth r.1 r.2
      end
  end.

(** [crawl(self, start_url, max_depth)] *)
Definition crawl (fuel : nat) (self : PageFetcher) (start_url : string) (max_depth : Z)
  : IO (option PageFetcher) :=
  crawl_loop fuel max_depth self [(start_url, 0)].

End Fetcher.

End page_fetcher.

(** ** [src/crawler/crawler_manager.py]

    The manager is written against collaborators ([page_fetcher.fetch],
    [content_extractor.extract], [robots_parser.parse],
    [politeness_policy.enforce]); they are taken as they are called.  The
    workers are threads over one queue and one set: a worker is a small
    machine whose steps are the operations that touch the shared state, each
    one atomic ([Queue] operations, the blocks under [self.lock]), and a run
    of the manager is an interleaving of worker steps. *)

Module crawler_manager.

(** What happened, in order (instrumentation, not read by the code). *)
Inductive event : Type :=
| Put (url : string)      (* self.url_queue.put(url) *)
| Fetch (url : string)    (* self.page_fetcher.fetch(url) was called *)
| Mark (url : string).    (* self.crawled_urls.add(url) *)

Record CrawlerManager : Type := mkCrawlerManager {
  url_queue : list string;
  crawled_urls : gset string;
  events : list event
}.

(** Where a worker stands in [worker] / [crawl]. *)
Inductive pc : Type :=
| AtTest                                      (* while not self.url_queue.empty() *)
| AtGet                                       (* url = self.url_queue.get() *)
| AtCrawl (url : string)                      (* enforce, can_crawl, crawl: fetch *)
| AtMark (url : string) (new_urls : list string)   (* with self.lock: crawled_urls.add *)
| AtLinks (new_urls : list string)            (* for new_url in new_urls *)
| Exited.                                     (* the loop is left, the thread ends *)

Inductive run_result : Type :=
| Done (st : CrawlerManager)
| Blocked (st : CrawlerManager)
| OutOfFuel.

Definition fetched_of (e : event) : option string :=
  match e with Fetch u => Some u | _ => None end.

(** The URLs passed to [fetch] so far, oldest first. *)
Definition fetched (st : CrawlerManager) : list string := omap fetched_of (events st).

Definition log (st : CrawlerManager) (e : event) : CrawlerManager :=
  {| url_queue := url_queue st; crawled_urls := crawled_urls st;
     events := (events st ++ [e])%list |}.

Definition set_queue (st : CrawlerManager) (q : list string) : CrawlerManager :=
  {| url_queue := q; crawled_urls := crawled_urls st; events := events st |}.

Definition put (st : CrawlerManager) (url : string) : CrawlerManager :=
  log (set_queue st (url_queue st ++ [url])%list) (Put url).

Definition mark (st : CrawlerManager) (url : string) : CrawlerManager :=
  if bool_decide (url ∈ crawled_urls st) then st
  else log {| url_queue := url_queue st; crawled_urls := {[url]} ∪ crawled_urls st;
              events := events st |} (Mark url).

(** [CrawlerManager(start_urls, ...)]: every start URL is put on the queue. *)
Definition init (start_urls : list string) : CrawlerManager :=
  foldl put {| url_queue := []; crawled_urls := ∅; events := [] |} start_urls.

Section Manager.

(** [self.page_fetcher.fetch(url)], which may depend on what was fetched
    before; [Ok None] is a failed fetch. *)
Variable page_fetcher_fetch : list string → string → result (option string).

(** [self.content_extractor.extract(page_content).get('links', [])] *)
Variable extract_links : string → list string.

(** [self.robots_parser.parse(url)]: an object with an [allowed] method,
    or a false value. *)
Variable robots_parse : string → option (string → bool).

(** [can_crawl(self, url)] *)
Definition can_crawl (url : string) : bool :=
  match robots_parse url with
  | Some allowed => allowed url
  | None => true
  end.

(** One step of one worker; [None] when the worker cannot move: it has
    exited, or it waits in [Queue.get()] on an empty queue. *)
Definition wstep (st : CrawlerManager) (p : pc) : option (CrawlerManager * pc) :=
  match p with
  | AtTest =>
      match url_queue st with
      | [] => Some (st, Exited)
      | _ => Some (st, AtGet)
      end
  | AtGet =>
      match url_queue st with
      | [] => None
      | url :: q => Some (set_queue st q, AtCrawl url)
      end
  | AtCrawl url =>
      if can_crawl url then
        match page_fetcher_fetch (fetched st) url with
        | Ok (Some page_content) =>
            if Py.truthy page_content
            then Some (log st (Fetch url), AtMark url (extract_links page_content))
            else Some (log st (Fetch url), AtTest)
        | _ => Some (log st (Fetch url), AtTest)     (* None, or caught by the worker *)
        end
      else Some (st, AtTest)
  | AtMark url new_urls => Some (mark st url, AtLinks new_urls)
  | AtLinks [] => Some (st, AtTest)
  | AtLinks (new_url :: rest) =>
      if bool_decide (new_url ∈ crawled_urls st)
      then Some (st, AtLinks rest)
      else Some (put st new_url, AtLinks rest)
  | Exited => None
  end.

(** The manager with its worker threads. *)
Definition system : Type := CrawlerManager * list pc.

(** [start_crawl]: [max_workers] threads, each entering [worker]. *)
Definition start_crawl (start_urls : list string) (max_workers : nat) : system :=
  (init start_urls, replicate max_workers AtTest).

(** Any worker that can move may move next. *)
Inductive step : system → system → Prop :=
| step_worker (st st' : CrawlerManager) (ps : list pc) (i : nat) (p p' : pc) :
    ps !! i = Some p →
    wstep st p = Some (st', p') →
    step (st, ps) (st', <[i := p']> ps).

(** The run in which the workers move in the order given by [schedule]. *)
Fixpoint run_schedule (schedule : list nat) (sys : system) : option system :=
  match schedule with
  | [] => Some sys
  | i :: rest =>
      match sys.2 !! i with
      | Some p =>
          match wstep sys.1 p with
          | Some (st', p') => run_schedule rest (st', <[i := p']> sys.2)
          | None => None
          end
      | None => None
      end
  end.

(** [thread.join()] returns for every thread. *)
Definition all_exited (sys : system) : Prop := Forall (λ p, p = Exited) sys.2.

(** A single worker run to its end. *)
Fixpoint run_worker (fuel : nat) (st : CrawlerManager) (p : pc) : run_result :=
  match fuel with
  | O => OutOfFuel
  | S fuel' =>
      match p with
      | Exited => Done st
      | _ =>
          match wstep st p with
          | Some (st', p') => run_worker fuel' st' p'
          | None => Blocked st
          end
      end
  end.

End Manager.

End crawler_manager.

(** ** Auxiliary definitions used in the statements and proofs *)

(** A line feed, to write robots.txt texts. *)
Definition LF : string := String "010" EmptyString.

Module ReAux.

(** The token and item sequences of a pattern made of literals only. *)
Definition lit_tokens (s : string) : list Re.token :=
  map (λ c, Re.TAtom (Re.Lit c)) (list_ascii_of_string s).

Definition lit_items (s : string) : list Re.item :=
  map (λ c, (Re.Lit c, Re.One)) (list_ascii_of_string s).

End ReAux.

Module RobotsAux.

(** Every stored rule of the parser is the escape of some raw path value. *)
Definition escaped (self : robots_parser.RobotsParser) : Prop :=
  ∀ key, ∃ raws : list string, robots_parser.rules_of self key = map Re.escape raws.

(** The worked robots.txt: one group for every agent, one Disallow rule. *)
Definition admin_txt : string := "User-agent: *" ++ LF ++ "Disallow: /admin".

(** A group addressed to some other crawler. *)
Definition otherbot_txt : string := "User-agent: OtherBot" ++ LF ++ "Disallow: /admin".

(** A group with a Crawl-delay value that is not a number, then a rule. *)
Definition bad_delay_txt : string :=
  "User-agent: *" ++ LF ++ "Crawl-delay: soon" ++ LF ++ "Disallow: /private".

(** A [float] that knows no literal at all, and one that reads integers. *)
Definition float_none : string → option Z := λ _, None.
Definition float_int : string → option Z := Py.int.

End RobotsAux.

(** ** Worked environments *)

Module Env.

(** A host that serves a robots.txt asking for ten seconds between
    requests and answers every other URL with a page. *)
Definition net_delay10 : Net :=
  λ _ url,
    if String.eqb url "http://example.com/robots.txt"
    then Response 200 ("User-agent: *" ++ LF ++ "Crawl-delay: 10")
    else Response 200 "<html></html>".

(** A host that cannot be reached at all. *)
Definition net_down : Net := λ _ _, ConnectionError.

(** A host that answers every request, robots.txt included, with [status]. *)
Definition net_status (status : Z) : Net := λ _ _, Response status EmptyString.

(** A host whose robots.txt is forbidden (403) while its pages are served. *)
Definition net_robots_403 : Net :=
  λ _ url,
    if String.eqb url "http://example.com/robots.txt"
    then Response 403 "Forbidden"
    else Response 200 "<html></html>".

(** The rule matcher of [RobotFileParser] is irrelevant when no body was read. *)
Definition rules_allow_all : string → string → string → bool := λ _ _ _, true.

End Env.

Module PolitenessAux.

Import politeness_policy.

(** The delay the specification asks for: the larger of the configured
    delay and the crawl delay of the host's cached robots rules. *)
Definition spec_delay (self : PolitenessPolicy) (host : string) : Z :=
  Z.max (delay self)
        (default 0 (robots_cache self !! host ≫= crawl_delay)).

(** A run of robots queries: [for url in urls: policy.can_fetch(url)]. *)
Fixpoint can_fetch_all (float : string → option Z) (net : Net) (lib : UrlLib)
    (self : PolitenessPolicy) (urls : list string) : IO PolitenessPolicy :=
  match urls with
  | [] => mret self
  | url :: rest =>
      r ← can_fetch float net lib self url;
      can_fetch_all float net lib r.1 rest
  end.

End PolitenessAux.

Module FetcherAux.

Import page_fetcher.

(** An attempt fails when the request raises or the status is 4xx or 5xx. *)
Definition attempt_fails (o : Outcome) : bool :=
  match o with
  | Response status _ => is_error_status status
  | _ => true
  end.

(** The schedule of the specification: [base * 2^i] for [i = 0 .. n-1]. *)
Definition backoff_schedule (base : Z) (n : nat) : list Z :=
  map (λ i, base * 2 ^ Z.of_nat i) (seq 0 n).

(** A run of robots checks: [for url in urls: fetcher.is_allowed_by_robots(url)]. *)
Fixpoint is_allowed_all (net : Net) (lib : UrlLib)
    (rules_can_fetch : string → string → string → bool)
    (self : PageFetcher) (urls : list string) : IO PageFetcher :=
  match urls with
  | [] => mret self
  | url :: rest =>
      r ← is_allowed_by_robots net lib rules_can_fetch self url;
      is_allowed_all net lib rules_can_fetch r.1 rest
  end.

End FetcherAux.

Module RobotsFetchAux.

(** The robots.txt request did not yield a 200 answer: the request raised
    (connection failure, timeout, too many redirects) or the status is not 200. *)
Definition robots_fetch_failed (o : Outcome) : bool :=
  match o with
  | Response status _ => negb (status =? 200)
  | _ => true
  end.

(** The request raised: no HTTP answer came back. *)
Definition request_raised (o : Outcome) : bool :=
  match o with
  | Response _ _ => false
  | _ => true
  end.

(** No connection: the request raised before any HTTP exchange. *)
Definition no_connection (o : Outcome) : bool :=
  match o with
  | ConnectionError | Timeout => true
  | _ => false
  end.

End RobotsFetchAux.

Module CrawlAux.

Import page_fetcher.

(** How many more levels below an entry the crawl may still descend:
    [max_depth + 1 - depth], and 0 for an entry deeper than [max_depth]. *)
Definition rank (max_depth : Z) (e : string * Z) : nat := Z.to_nat (max_depth + 1 - e.2).

(** The number of entries of rank [k] in a list of entries. *)
Definition count_rank (max_depth : Z) (k : nat) (q : list (string * Z)) : nat :=
  length (filter (λ e, rank max_depth e = k) q).

Section Halts.

Variable net : Net.
Variable lib : UrlLib.
Variable rules_can_fetch : string → string → string → bool.
Variable extract_links : string → list string.
Variable urljoin : string → string → string.

(** The loop of [crawl] empties the list after finitely many iterations. *)
Definition halts (max_depth : Z) (self : PageFetcher) (q : list (string * Z)) (w : World)
  : Prop :=
  ∃ fuel : nat,
    is_Some (crawl_loop net lib rules_can_fetch extract_links urljoin
               fuel max_depth self q w).1.

End Halts.

End CrawlAux.

Module ManagerAux.

Import crawler_manager.

(** In a log of events no URL is put on the queue after it was marked crawled. *)
Definition no_put_after_mark (evs : list event) : Prop :=
  ∀ (i j : nat) (u : string),
    evs !! i = Some (Mark u) → evs !! j = Some (Put u) → (j < i)%nat.

(** What holds of the manager and its workers throughout a run. *)
Record inv (sys : CrawlerManager * list pc) : Prop := mkInv {
  inv_order : no_put_after_mark (events sys.1);
  inv_mark : ∀ u, Mark u ∈ events sys.1 → u ∈ crawled_urls sys.1;
  inv_crawled : ∀ u, u ∈ crawled_urls sys.1 → Fetch u ∈ events sys.1 ∧ Mark u ∈ events sys.1;
  inv_pc : ∀ u l, AtMark u l ∈ sys.2 → Fetch u ∈ events sys.1
}.

(** A page is its own address, every fetch succeeds. *)
Definition fetch_echo : list string → string → result (option string) :=
  λ _ url, Ok (Some url).

(** No robots rules anywhere. *)
Definition robots_none : string → option (string → bool) := λ _, None.

(** The start page links twice to the same page, which has no links. *)
Definition links_dup (page : string) : list string :=
  if String.eqb page "http://example.com/"
  then ["http://example.com/b"; "http://example.com/b"]
  else [].

(** No page has a link. *)
Definition links_none (page : string) : list string := [].

(** Every page links to one further page, whose address is one character longer. *)
Definition links_chain (page : string) : list string := [page ++ "x"].

(** The states of a single worker on the endless chain, the URL at hand being [u]. *)
Definition chain_state (st : CrawlerManager) (p : pc) : Prop :=
  ∃ u : string,
    u ≠ EmptyString ∧
    match p with
    | AtTest | AtGet | AtLinks [] =>
        url_queue st = [u] ∧
        ∀ v, v ∈ crawled_urls st → (String.length v < String.length u)%nat
    | AtCrawl u' =>
        u' = u ∧ url_queue st = [] ∧
        ∀ v, v ∈ crawled_urls st → (String.length v < String.length u)%nat
    | AtMark u' l =>
        u' = u ∧ l = [u ++ "x"] ∧ url_queue st = [] ∧
        ∀ v, v ∈ crawled_urls st → (String.length v < String.length u)%nat
    | AtLinks [l] =>
        l = u ++ "x" ∧ url_queue st = [] ∧
        ∀ v, v ∈ crawled_urls st → (String.length v ≤ String.length u)%nat
    | _ => False
    end.

End ManagerAux.

Module ManagerRuns.

Import crawler_manager ManagerAux.

(** One worker on the site whose start page links twice to the same page,
    run until it exits (18 steps). *)
Definition dup_run : CrawlerManager * list pc :=
  default (start_crawl ["http://example.com/"] 1)
    (run_schedule fetch_echo links_dup robots_none (replicate 18 0%nat)
       (start_crawl ["http://example.com/"] 1)).

(** Two workers and one start URL without links: both workers pass the
    emptiness test before either takes the URL; worker 0 takes it, crawls
    it and exits. *)
Definition race_run : CrawlerManager * list pc :=
  default (start_crawl ["http://example.com/"] 2)
    (run_schedule fetch_echo links_none robots_none [0; 1; 0; 0; 0; 0; 0]%nat
       (start_crawl ["http://example.com/"] 2)).

End ManagerRuns.

Module ManagerMeasure.

Import crawler_manager.

(** The URLs of the site [U] that are not in the crawled set yet. *)
Definition uncrawled (U : gset string) (st : CrawlerManager) : nat :=
  size (U ∖ crawled_urls st).

(** Queue entries whose URL is already crawled, and those whose URL is not. *)
Definition count_crawled (st : CrawlerManager) (q : list string) : nat :=
  length (filter (λ u, u ∈ crawled_urls st) q).

Definition count_fresh (st : CrawlerManager) (q : list string) : nat :=
  length (filter (λ u, u ∉ crawled_urls st) q).

(** The entry a worker holds counts like a queue entry; a link still to be
    examined counts twice as much as the queue entry it may become. *)
Definition pc_crawled (st : CrawlerManager) (p : pc) : nat :=
  match p with
  | AtCrawl u | AtMark u _ => if bool_decide (u ∈ crawled_urls st) then 1 else 0
  | _ => 0
  end.

Definition pc_fresh (st : CrawlerManager) (p : pc) : nat :=
  match p with
  | AtCrawl u | AtMark u _ => if bool_decide (u ∈ crawled_urls st) then 0 else 1
  | AtLinks l => 2 * length l
  | _ => 0
  end.

Definition pc_rank (p : pc) : nat :=
  match p with
  | AtLinks _ => 5
  | AtTest => 4
  | AtGet => 3
  | AtCrawl _ => 2
  | AtMark _ _ => 1
  | Exited => 0
  end.

Definition measure (U : gset string) (st : CrawlerManager) (p : pc) : nat * nat * nat * nat :=
  (uncrawled U st,
   count_crawled st (url_queue st) + pc_crawled st p,
   count_fresh st (url_queue st) + pc_fresh st p,
   pc_rank p)%nat.

(** The lexicographic order on quadruples. *)
Definition lt4 (x y : nat * nat * nat * nat) : Prop :=
  let '(a', b', c', d') := x in
  let '(a, b, c, d) := y in
  (a' < a ∨ (a' = a ∧ (b' < b ∨ (b' = b ∧ (c' < c ∨ (c' = c ∧ d' < d))))))%nat.

(** The URLs a worker holds. *)
Definition pc_urls (p : pc) : list string :=
  match p with
  | AtCrawl u => [u]
  | AtMark u l => u :: l
  | AtLinks l => l
  | _ => []
  end.

(** A single worker on the site [U]: every URL around belongs to [U], and
    the worker is about to call [get] only on a non-empty queue. *)
Definition within (U : gset string) (st : CrawlerManager) (p : pc) : Prop :=
  (∀ u, u ∈ url_queue st → u ∈ U) ∧
  (∀ u, u ∈ pc_urls p → u ∈ U) ∧
  (p = AtGet → url_queue st ≠ []).

End ManagerMeasure.

Module Site.

(** The two URLs of the worked site. *)
Definition two_pages : gset string :=
  {["http://example.com/"]} ∪ {["http://example.com/b"]}.

End Site.

(** ** Further definitions: line shapes, the [Crawler] class, counting *)

Module PyAux.

(** No character of [s] is a line boundary of [str.splitlines]. *)
Fixpoint no_linebreak (s : string) : bool :=
  match s with
  | EmptyString => true
  | String c s' => negb (Py.is_linebreak c) && no_linebreak s'
  end.

End PyAux.

Module RoundTripAux.

Import PyAux.

(** A value as it stands in a robots.txt line: not empty, no surrounding
    whitespace, no line boundary inside. *)
Definition clean_value (v : string) : Prop :=
  v ≠ EmptyString ∧ Py.lstrip v = v ∧ Py.rstrip v = v ∧ no_linebreak v = true.

(** The robots.txt with one group for every agent, one Disallow and one
    Allow rule, written in that order. *)
Definition two_rule_txt (d a : string) : string :=
  "User-agent: *" ++ LF ++ ("Disallow: " ++ d) ++ LF ++ ("Allow: " ++ a).

End RoundTripAux.

(** The [Crawler] class of [src/crawler/robots_parser.py]: a sequential
    crawler over two sets, driven by the rules of [robots_parser.RobotsParser]. *)

Module robots_crawler.

Record Crawler : Type := mkCrawler {
  base_url : string;
  visited_urls : gset string;
  to_crawl : gset string;
  robots : robots_parser.RobotsParser     (* self.robots_parser *)
}.

Definition set_to_crawl (self : Crawler) (s : gset string) : Crawler :=
  {| base_url := base_url self; visited_urls := visited_urls self;
     to_crawl := s; robots := robots self |}.

Section Crawler.

Variable net : Net.
Variable lib : UrlLib.
Variable urljoin : string → string → string.

(** The [href] values of the anchors of a page, in document order
    ([soup.find_all('a', href=True)]). *)
Variable hrefs : string → list string.

(** [set.pop()]: the element that the [k]-th [pop] of a run removes from
    the set; which element it is is up to the interpreter. *)
Variable set_pop : nat → gset string → string.

(** [Crawler(base_url, user_agent)]: the robots parser is filled by
    [fetch_robots]; an exception of the parser leaves the constructor. *)
Definition init (base_url ua : string) : IO (result Crawler) :=
  r ← robots_parser.fetch_robots net (robots_parser.init ua) (urljoin base_url "/robots.txt");
  match r with
  | (rp, Ok _) =>
      mret (Ok {| base_url := base_url; visited_urls := ∅; to_crawl := ∅; robots := rp |})
  | (_, Raise e) => mret (Raise e)
  end.

(** [extract_links(self, html_content, base_url)]: the absolute links
    that stay on the host of [self.base_url]. *)
Definition extract_links (self : Crawler) (html_content page_url : string) : gset string :=
  list_to_set
    (filter (λ full_url, url_netloc lib full_url = url_netloc lib (base_url self))
            (map (urljoin page_url) (hrefs html_content))).

(** What a 200 answer does in [crawl]: [visited_urls.add(url)],
    [to_crawl.update(links)], [to_crawl.difference_update(visited_urls)]. *)
Definition record_page (self : Crawler) (url content : string) : Crawler :=
  let visited := {[url]} ∪ visited_urls self in
  {| base_url := base_url self; visited_urls := visited;
     to_crawl := (to_crawl self ∪ extract_links self content url) ∖ visited;
     robots := robots self |}.

(** The [try] block of [crawl]; every [requests.RequestException] is caught. *)
Definition crawl_request (self : Crawler) (url : string) : IO (Crawler * result unit) :=
  resp ← http_get net url;
  match resp with
  | Response status content =>
      if status =? 200 then mret (record_page self url content, Ok tt)
      else mret (self, Ok tt)
  | _ => mret (self, Ok tt)
  end.

(** [crawl(self, url)].  [if delay:] skips [None] and [0]; [time.sleep]
    refuses a negative length with [ValueError], outside the [try]. *)
Definition crawl (self : Crawler) (url : string) : IO (Crawler * result unit) :=
  match robots_parser.is_allowed lib (robots self) url with
  | Raise e => mret (self, Raise e)
  | Ok false => mret (self, Ok tt)
  | Ok true =>
      match robots_parser.get_crawl_delay (robots self) with
      | None => crawl_request self url
      | Some delay =>
          if delay =? 0 then crawl_request self url
          else if delay <? 0 then mret (self, Raise ValueError)
          else _ ← time_sleep delay; crawl_request self url
      end
  end.

(** The [while self.to_crawl and pages_crawled < max_pages] loop of
    [start_crawling], [k] pops having been made; [None] when [fuel]
    iterations did not end it. *)
Fixpoint crawl_pages (fuel k : nat) (self : Crawler) (pages_crawled max_pages : Z)
  : IO (option (Crawler * result Z)) :=
  match fuel with
  | O => mret None
  | S fuel' =>
      if bool_decide (to_crawl self = ∅) || negb (pages_crawled <? max_pages)
      then mret (Some (self, Ok pages_crawled))
      else
        let url := set_pop k (to_crawl self) in
        let self := set_to_crawl self (to_crawl self ∖ {[url]}) in
        if bool_decide (url ∈ visited_urls self)
        then crawl_pages fuel' (S k) self pages_crawled max_pages
        else
          r ← crawl self url;
          match r with
          | (self', Ok _) => crawl_pages fuel' (S k) self' (pages_crawled + 1) max_pages
          | (self', Raise e) => mret (Some (self', Raise e))
          end
  end.

(** [start_crawling(self, initial_url, max_pages)]; the result carries
    the number of pages crawled that the method prints. *)
Definition start_crawling (fuel : nat) (self : Crawler) (initial_url : option string)
    (max_pages : Z) : IO (option (Crawler * result Z)) :=
  let initial_url := default (base_url self) initial_url in
  crawl_pages fuel 0 (set_to_crawl self ({[initial_url]} ∪ to_crawl self)) 0 max_pages.

(** [get_sitemap_urls(self)] *)
Definition get_sitemap_urls (self : Crawler) : list string :=
  robots_parser.sitemaps (robots self).

End Crawler.

End robots_crawler.

Module CrawlerAux.

Import robots_crawler.

(** [set.pop()] returns an element of the set it is called on. *)
Definition pop_ok (set_pop : nat → gset string → string) : Prop :=
  ∀ k s, s ≠ ∅ → set_pop k s ∈ s.

(** One possible [pop]: the first element in the order of [elements]. *)
Definition pop_first : nat → gset string → string :=
  λ _ s, default EmptyString (head (elements s)).

(** [urljoin] on the references of the worked site: an absolute path
    replaces the path of the base, an absolute URL stands for itself. *)
Definition urljoin_site (base link : string) : string :=
  if Py.startswith link "/"
  then Url.scheme base ++ "://" ++ Url.netloc base ++ link
  else link.

(** A site of three pages and a link that leaves it; robots.txt refuses
    [/private] and asks for ten seconds between requests. *)
Definition net_site : Net :=
  λ _ url,
    if String.eqb url "http://example.com/robots.txt"
    then Response 200 ("User-agent: *" ++ LF ++ "Disallow: /private" ++ LF ++ "Crawl-delay: 10")
    else if String.eqb url "http://example.com/" then Response 200 "home"
    else Response 200 "leaf".

Definition hrefs_site (content : string) : list string :=
  if String.eqb content "home"
  then ["/b"; "/private"; "http://other.org/"]
  else [].

(** The same host with a negative crawl delay. *)
Definition net_negative_delay : Net :=
  λ _ url,
    if String.eqb url "http://example.com/robots.txt"
    then Response 200 ("User-agent: *" ++ LF ++ "Crawl-delay: -1")
    else Response 200 "leaf".

(** [Crawler("http://example.com/")] on a network, and the world it leaves. *)
Definition crawler_on (net : Net) : Crawler * World :=
  let '(r, w) := init net urljoin_site "http://example.com/" "*" world0 in
  (match r with
   | Ok c => c
   | Raise _ => mkCrawler "http://example.com/" ∅ ∅ (robots_parser.init "*")
   end, w).

(** [start_crawling(max_pages=10)] of that crawler. *)
Definition site_run : option (Crawler * result Z) * World :=
  start_crawling net_site Url.simple urljoin_site hrefs_site pop_first 10
    (crawler_on net_site).1 None 10 (crawler_on net_site).2.

(** The crawler and the result at the end of that call. *)
Definition site_end : Crawler * result Z :=
  default ((crawler_on net_site).1, Ok 0) site_run.1.

End CrawlerAux.

Module FetcherGrowth.

Import page_fetcher.

(** How a fetcher and the world may differ after some crawling: nothing is
    forgotten, nothing is visited without a request, time does not run back. *)
Definition grows (self : PageFetcher) (w : World) (self' : PageFetcher) (w' : World) : Prop :=
  visited_urls self ⊆ visited_urls self' ∧
  (∀ u, u ∈ visited_urls self' → u ∈ visited_urls self ∨ u ∈ requested_urls w') ∧
  requested_urls w `prefix_of` requested_urls w' ∧
  slept w `prefix_of` slept w' ∧
  clock w ≤ clock w' ∧
  robots_cache self ⊆ robots_cache self' ∧
  (user_agent self', timeout self', max_retries self')
    = (user_agent self, timeout self, max_retries self).

End FetcherGrowth.

Module PolitenessRuns.

(** A robots.txt whose first line is a rule, before any [User-agent:] line. *)
Definition net_headless_robots : Net :=
  λ _ url,
    if String.eqb url "http://example.com/robots.txt"
    then Response 200 ("Disallow: /private" ++ LF ++ "User-agent: *" ++ LF ++ "Disallow: /admin")
    else Response 200 "<html></html>".

(** A policy that has cached rules refusing [/admin] on the example host. *)
Definition admin_policy : politeness_policy.PolitenessPolicy :=
  politeness_policy.mkPolitenessPolicy "Bot" 2 ∅
    {["example.com" := politeness_policy.mkRobotsParser "Bot" ["/admin"] None]}.

End PolitenessRuns.

Module ManagerCounts.

Import crawler_manager.

#[export] Instance event_eq_dec : EqDecision event.
Proof. solve_decision. Defined.

#[export] Instance pc_eq_dec : EqDecision pc.
Proof. solve_decision. Defined.

(** How often [url] was passed to [fetch], and how often it was put on the queue. *)
Definition fetch_count (url : string) (st : CrawlerManager) : nat :=
  length (filter (λ e, e = Fetch url) (events st)).

Definition put_count (url : string) (st : CrawlerManager) : nat :=
  length (filter (λ e, e = Put url) (events st)).

(** The copies of [url] waiting in the queue, and the workers that have
    taken a copy and not fetched it yet. *)
Definition queued (url : string) (st : CrawlerManager) : nat :=
  length (filter (λ u, u = url) (url_queue st)).

Definition holders (url : string) (ps : list pc) : nat :=
  length (filter (λ p, p = AtCrawl url) ps).

(** The copies of [url] accounted for: fetched, held by a worker, or waiting. *)
Definition accounted (url : string) (sys : CrawlerManager * list pc) : nat :=
  (fetch_count url sys.1 + holders url sys.2 + queued url sys.1)%nat.

(** Some thread is still running, or nothing is left on the queue. *)
Definition drained (sys : CrawlerManager * list pc) : Prop :=
  (∃ p, p ∈ sys.2 ∧ p ≠ Exited) ∨ url_queue sys.1 = [].

End ManagerCounts.

(** * Properties *)

(** ** Escaped patterns are literal prefixes *)

Module ReFacts.

Lemma special_not_alnum (c : ascii) :
  Re.is_special c = true → Py.is_alpha c || Py.is_digit c = false.
Proof.
  destruct c as [[] [] [] [] [] [] [] []]; vm_compute; congruence.
Qed.

Lemma plain_classify (c : ascii) :
  Re.is_special c = false →
  Ascii.eqb c "\" = false ∧ Re.classify c = Some (Re.TAtom (Re.Lit c)).
Proof.
  destruct c as [[] [] [] [] [] [] [] []]; vm_compute; intros H; split; congruence.
Qed.

Import ReAux.

Lemma tokens_escape (s : string) : Re.tokens (Re.escape s) = Some (lit_tokens s).
Proof.
  induction s as [|c s IH]; [reflexivity|].
  cbn [Re.escape]. destruct (Re.is_special c) eqn:Hc.
  - cbn [Re.tokens]. rewrite Ascii.eqb_refl, (special_not_alnum c Hc), IH. reflexivity.
  - destruct (plain_classify c Hc) as [Hb Hcl].
    cbn [Re.tokens]. rewrite Hb, Hcl, IH. reflexivity.
Qed.

Lemma items_lit (s : string) : Re.items (lit_tokens s) = Some (lit_items s).
Proof.
  induction s as [|c s IH]; [reflexivity|].
  unfold lit_tokens, lit_items in *. cbn [list_ascii_of_string map Re.items].
  destruct s as [|d s]; [reflexivity|].
  cbn [list_ascii_of_string map] in *. rewrite IH. reflexivity.
Qed.

Lemma compile_escape (s : string) : Re.compile (Re.escape s) = Some (lit_items s).
Proof. unfold Re.compile. rewrite tokens_escape. apply items_lit. Qed.

Lemma matches_lit (p : string) : ∀ (start : bool) (s : string),
  Re.matches (lit_items p) start s = String.prefix p s.
Proof.
  induction p as [|c p IH]; intros start s.
  - destruct s; reflexivity.
  - unfold lit_items in *. cbn [list_ascii_of_string map Re.matches].
    destruct s as [|d s]; [reflexivity|].
    cbn [String.prefix Re.accepts]. rewrite IH.
    destruct (ascii_dec c d) as [->|Hne].
    + rewrite Ascii.eqb_refl. reflexivity.
    + apply Ascii.eqb_neq in Hne. rewrite Ascii.eqb_sym, Hne. reflexivity.
Qed.

(** [re.match(re.escape(p), s)] succeeds exactly when [s.startswith(p)]. *)
Lemma match_escape (p s : string) :
  Re.match_ (Re.escape p) s = Some (Py.startswith s p).
Proof.
  unfold Re.match_, Py.startswith. rewrite compile_escape, matches_lit. reflexivity.
Qed.

End ReFacts.

(** ** [robots_parser]: what the parser stores and how rules are matched *)

Module RobotsParserFacts.

Import robots_parser RobotsAux.

Lemma rules_of_append (self : RobotsParser) (key v key' : string) :
  rules_of (set_rules self (rules_append key v (rules self))) key' =
  if decide (key = key') then (rules_of self key ++ [v])%list else rules_of self key'.
Proof.
  unfold rules_of, set_rules, rules_append. cbn [rules].
  rewrite lookup_insert. destruct (decide (key = key')) as [->|]; reflexivity.
Qed.

Lemma some_rule_matches_escaped (raws : list string) (path : string) :
  some_rule_matches (map Re.escape raws) path = Ok (existsb (Py.startswith path) raws).
Proof.
  induction raws as [|raw raws IH]; [reflexivity|].
  cbn [map some_rule_matches existsb]. rewrite ReFacts.match_escape.
  destruct (Py.startswith path raw); [reflexivity | exact IH].
Qed.

Lemma escaped_init (ua : string) : escaped (init ua).
Proof. intros key. exists []. reflexivity. Qed.

Lemma escaped_append (self : RobotsParser) (key raw : string) :
  escaped self → escaped (set_rules self (rules_append key (Re.escape raw) (rules self))).
Proof.
  intros H key'. rewrite rules_of_append.
  destruct (decide (key = key')) as [->|_]; [|apply H].
  destruct (H key') as [raws ->]. exists (raws ++ [raw])%list.
  rewrite map_app. reflexivity.
Qed.

Lemma parse_rule_escaped (self self' : RobotsParser) (line : string) :
  escaped self → _parse_rule self line = Ok self' → escaped self'.
Proof.
  intros H. unfold _parse_rule.
  repeat match goal with
         | |- context [if ?b then _ else _] => destruct b
         | |- context [match Py.int ?s with _ => _ end] => destruct (Py.int s)
         end; intros [= <-]; auto using escaped_append.
Qed.

Lemma parse_lines_escaped (lines : list string) :
  ∀ (self : RobotsParser) (cua : option string),
    escaped self → escaped (parse_lines self cua lines).1.
Proof.
  induction lines as [|raw rest IH]; intros self cua H; [exact H|].
  cbn [parse_lines].
  repeat match goal with
         | |- context [if ?b then _ else _] => destruct b
         end; auto.
  - destruct (_parse_rule self (Py.strip raw)) eqn:E; [|exact H].
    apply IH. eapply parse_rule_escaped; eauto.
Qed.

Lemma parse_robots_escaped (ua text : string) : escaped (parse_robots (init ua) text).1.
Proof. apply parse_lines_escaped, escaped_init. Qed.

(** On escaped rules [is_allowed] is a prefix test: allowed when an Allow
    value is a prefix of the path, or no Disallow value is. *)
Lemma is_allowed_escaped (lib : UrlLib) (self : RobotsParser) (url : string)
    (allow disallow : list string) :
  rules_of self "allow" = map Re.escape allow →
  rules_of self "disallow" = map Re.escape disallow →
  is_allowed lib self url =
    Ok (existsb (Py.startswith (url_path lib url)) allow
        || negb (existsb (Py.startswith (url_path lib url)) disallow)).
Proof.
  intros Ha Hd. unfold is_allowed. rewrite Ha, Hd, !some_rule_matches_escaped.
  destruct (existsb _ allow); [reflexivity|].
  destruct (existsb _ disallow); reflexivity.
Qed.

Lemma admin_rules :
  rules_of (parse_robots (init "*") admin_txt).1 "allow" = [] ∧
  rules_of (parse_robots (init "*") admin_txt).1 "disallow" = map Re.escape ["/admin"] ∧
  (parse_robots (init "*") admin_txt).2 = Ok tt.
Proof. vm_compute. auto. Qed.



End RobotsParserFacts.

(** ** User-agent groups and malformed Crawl-delay lines *)

Module GroupFacts.

Import RobotsAux.

(** What [robots_parser.parse_robots] tests before it applies a rule line:
    a non-empty group token, and either the crawler's own name is ["*"] or
    the token is the crawler's name. *)
Lemma group_applies_spec (self : robots_parser.RobotsParser) (token : string) :
  robots_parser.group_applies self (Some token) = true ↔
  token ≠ "" ∧ (robots_parser.user_agent self = "*" ∨ token = robots_parser.user_agent self).
Proof.
  unfold robots_parser.group_applies.
  rewrite andb_true_iff, orb_true_iff, !String.eqb_eq.
  destruct token; cbn [Py.truthy]; intuition congruence.
Qed.

(** What [politeness_policy.parse_robots_txt] computes at a [User-agent:]
    line: the token is ["*"] or the crawler's name. *)
Lemma politeness_group_applies (float : string → option Z)
    (self : politeness_policy.RobotsParser) (raw : string) (rest : list string)
    (applicable : option bool) :
  Py.truthy (Py.strip raw) = true →
  Py.startswith (Py.strip raw) "#" = false →
  Py.startswith (Py.lower (Py.strip raw)) "user-agent:" = true →
  politeness_policy.parse_lines float self applicable (raw :: rest) =
  politeness_policy.parse_lines float self
    (Some (String.eqb (politeness_policy.value_of (Py.strip raw)) "*"
           || String.eqb (politeness_policy.value_of (Py.strip raw))
                         (politeness_policy.rp_user_agent self))) rest.
Proof.
  intros H1 H2 H3. cbn [politeness_policy.parse_lines]. rewrite H1, H2, H3. reflexivity.
Qed.

(** C7, at the inputs where [robots_parser.parse_robots] departs from it.
    A crawler named MyBot reads a robots.txt whose only group is [*]: the
    Disallow rule is dropped and [/admin] is allowed.  A crawler named [*]
    reads a robots.txt whose only group is for OtherBot: the rule is applied
    and [/admin] is refused.  [politeness_policy.parse_robots_txt] applies
    the [*] group to MyBot and skips the OtherBot group. *)
Theorem parse_robots_group_selection :
  robots_parser.rules_of (robots_parser.parse_robots (robots_parser.init "MyBot") admin_txt).1
    "disallow" = [] ∧
  robots_parser.is_allowed Url.simple
    (robots_parser.parse_robots (robots_parser.init "MyBot") admin_txt).1
    "http://example.com/admin" = Ok true ∧
  robots_parser.is_allowed Url.simple
    (robots_parser.parse_robots (robots_parser.init "*") otherbot_txt).1
    "http://example.com/admin" = Ok false ∧
  politeness_policy.disallowed_paths
    (politeness_policy.parse_robots_txt float_int
       (politeness_policy.mkRobotsParser "MyBot" [] None) admin_txt).1 = ["/admin"] ∧
  politeness_policy.disallowed_paths
    (politeness_policy.parse_robots_txt float_int
       (politeness_policy.mkRobotsParser "*" [] None) otherbot_txt).1 = [].
Proof. vm_compute. auto 6. Qed.

End GroupFacts.

Module CrawlDelayFacts.

Import RobotsAux.

Lemma lower_starts (line p : string) (c : ascii) :
  Py.startswith (Py.lower line) (String c p) = true →
  ∃ d rest, line = String d rest ∧ Py.lower_char d = c.
Proof.
  destruct line as [|d rest]; [discriminate|].
  unfold Py.startswith. cbn [Py.lower String.prefix].
  destruct (ascii_dec c (Py.lower_char d)) as [->|]; [|discriminate].
  eauto.
Qed.

(** A line that starts with [crawl-delay:] (in any case) is a rule line and
    neither a Disallow nor an Allow line. *)
Lemma crawl_delay_line (line : string) :
  Py.startswith (Py.lower line) "crawl-delay:" = true →
  Py.truthy line = true ∧
  Py.startswith line "#" = false ∧
  Py.startswith (Py.lower line) "user-agent:" = false ∧
  Py.startswith (Py.lower line) "disallow:" = false ∧
  Py.startswith (Py.lower line) "allow:" = false.
Proof.
  intros H. destruct (lower_starts _ _ _ H) as (d & rest & -> & Hd).
  unfold Py.startswith. cbn [Py.lower Py.truthy String.prefix]. rewrite Hd.
  repeat split; try reflexivity.
  destruct (ascii_dec "#" d) as [<-|]; [|reflexivity].
  vm_compute in Hd. discriminate.
Qed.

Lemma parse_rule_bad_delay (self : robots_parser.RobotsParser) (line : string) :
  Py.startswith (Py.lower line) "crawl-delay:" = true →
  Py.int (robots_parser.value_of line) = None →
  robots_parser._parse_rule self line = Raise ValueError.
Proof.
  intros H Hint. destruct (crawl_delay_line line H) as (_ & _ & _ & Hd & Ha).
  unfold robots_parser._parse_rule. rewrite Hd, Ha, H, Hint. reflexivity.
Qed.




End CrawlDelayFacts.

(** ** [politeness_policy]: the wait between requests *)

Ltac io_unfold :=
  unfold mbind, mret, IO_bind, IO_ret, http_get, time_time, time_sleep in *.

Module PolitenessFacts.

Import politeness_policy PolitenessAux RobotsAux.

(** A host contacted for the first time is not made to wait. *)
Lemma respect_delay_first (lib : UrlLib) (self : PolitenessPolicy) (url : string) (w : World) :
  last_access_times self !! url_netloc lib url = None →
  (respect_delay lib self url w).2 = w.
Proof.
  intros H. unfold respect_delay. io_unfold. cbn. rewrite H. reflexivity.
Qed.




(** The recorded access time is the time read on entry, before the sleep:
    of three pages of one host asked for at once, the second and the third
    are both requested at time 2. *)
Lemma respect_delay_records_entry_time :
  requested (fetch_pages float_int (Env.net_status 200) Url.simple (init "Bot" 2)
               ["http://example.com/a"; "http://example.com/b"; "http://example.com/c"]
               world0).2
  = [(0, "http://example.com/robots.txt"); (0, "http://example.com/a");
     (2, "http://example.com/b"); (2, "http://example.com/c")].
Proof. vm_compute. reflexivity. Qed.

End PolitenessFacts.

(** ** Robots resolution: what a failed fetch yields and what is cached *)

Module RobotsCacheFacts.

Import RobotsAux RobotsFetchAux PolitenessAux FetcherAux.

Section Policy.

Import politeness_policy.

Variable float : string → option Z.
Variable net : Net.
Variable lib : UrlLib.

(** A cached host is answered from the cache: no request, nothing changes. *)
Lemma can_fetch_cached (self : PolitenessPolicy) (url : string) (w : World)
    (rp : RobotsParser) :
  robots_cache self !! url_netloc lib url = Some rp →
  can_fetch float net lib self url w = ((self, rp_can_fetch lib rp (user_agent self) url), w).
Proof. intros H. unfold can_fetch. rewrite H. reflexivity. Qed.

(** A host that is not cached costs exactly one request, to its robots.txt. *)
Lemma can_fetch_miss_requests (self : PolitenessPolicy) (url : string) (w : World) :
  robots_cache self !! url_netloc lib url = None →
  requested (can_fetch float net lib self url w).2
    = (requested w ++ [(clock w, robots_url_of lib url)])%list.
Proof.
  intros H. unfold can_fetch, RobotsParser_init, fetch_robots_txt, make_request.
  rewrite H. io_unfold. cbn.
  destruct (net w (robots_url_of lib url)) as [status text| | |]; cbn; try reflexivity.
  destruct (status =? 200); cbn; [|reflexivity].
  destruct (parse_robots_txt float _ text) as [self' [[]|e]]; reflexivity.
Qed.

(** Fail-open in [PolitenessPolicy.can_fetch]: when the robots.txt request
    raises or is answered with a status other than 200, every URL of the
    host is allowed. *)
Lemma can_fetch_fail_open (self : PolitenessPolicy) (url : string) (w : World) :
  robots_cache self !! url_netloc lib url = None →
  robots_fetch_failed (net w (robots_url_of lib url)) = true →
  (can_fetch float net lib self url w).1.2 = true.
Proof.
  intros H Hf. unfold can_fetch, RobotsParser_init, fetch_robots_txt, make_request.
  rewrite H. io_unfold. cbn.
  destruct (net w (robots_url_of lib url)) as [status text| | |]; cbn in *; try reflexivity.
  destruct (status =? 200); [discriminate|]. reflexivity.
Qed.

(** A request that raises leaves the cache as it was. *)
Lemma can_fetch_raise_not_cached (self : PolitenessPolicy) (url : string) (w : World) :
  robots_cache self !! url_netloc lib url = None →
  request_raised (net w (robots_url_of lib url)) = true →
  (can_fetch float net lib self url w).1.1 = self.
Proof.
  intros H Hf. unfold can_fetch, RobotsParser_init, fetch_robots_txt, make_request.
  rewrite H. io_unfold. cbn.
  destruct (net w (robots_url_of lib url)) as [status text| | |]; cbn in *;
    try reflexivity. discriminate.
Qed.

(** An answer with a status other than 200 is cached, as a parser without rules. *)
Lemma can_fetch_caches_non_200 (self : PolitenessPolicy) (url : string) (w : World)
    (status : Z) (text : string) :
  robots_cache self !! url_netloc lib url = None →
  net w (robots_url_of lib url) = Response status text →
  status ≠ 200 →
  robots_cache (can_fetch float net lib self url w).1.1 !! url_netloc lib url
    = Some (mkRobotsParser (user_agent self) [] None).
Proof.
  intros H Hn Hs. unfold can_fetch, RobotsParser_init, fetch_robots_txt, make_request.
  rewrite H. io_unfold. cbn. rewrite Hn.
  apply Z.eqb_neq in Hs. rewrite Hs. cbn. apply lookup_insert_eq.
Qed.

(** A resolution that does not raise is cached. *)
Lemma can_fetch_caches (self : PolitenessPolicy) (url : string) (w : World)
    (rp : RobotsParser) :
  robots_cache self !! url_netloc lib url = None →
  (RobotsParser_init float net (robots_url_of lib url) (user_agent self) w).1 = Ok rp →
  robots_cache (can_fetch float net lib self url w).1.1 !! url_netloc lib url = Some rp.
Proof.
  intros H Hinit. unfold can_fetch. rewrite H. io_unfold.
  destruct (RobotsParser_init float net (robots_url_of lib url) (user_agent self) w)
    as [[rp'|e] w1]; cbn in Hinit |- *; [|discriminate].
  injection Hinit as ->. apply lookup_insert_eq.
Qed.

Lemma can_fetch_all_cached (urls : list string) (self : PolitenessPolicy) (w : World) :
  (∀ url, url ∈ urls → is_Some (robots_cache self !! url_netloc lib url)) →
  can_fetch_all float net lib self urls w = (self, w).
Proof.
  induction urls as [|url rest IH]; intros H; [reflexivity|].
  cbn [can_fetch_all]. io_unfold.
  destruct (H url) as [rp Hrp]; [left|].
  rewrite (can_fetch_cached self url w rp Hrp). cbn.
  apply IH. intros u Hu. apply H. right. exact Hu.
Qed.

End Policy.

Section Fetcher.

Import page_fetcher.

Variable net : Net.
Variable lib : UrlLib.
Variable rules_can_fetch : string → string → string → bool.

Lemma is_allowed_cached (self : PageFetcher) (url : string) (w : World)
    (rp : RobotFileParser) :
  robots_cache self !! robots_url_of lib url = Some rp →
  is_allowed_by_robots net lib rules_can_fetch self url w
    = ((self, rfp_can_fetch rules_can_fetch rp (user_agent self) url), w).
Proof. intros H. unfold is_allowed_by_robots. rewrite H. reflexivity. Qed.

(** The robots check never sleeps and never moves the clock. *)
Lemma is_allowed_no_sleep (self : PageFetcher) (url : string) (w : World) :
  slept (is_allowed_by_robots net lib rules_can_fetch self url w).2 = slept w ∧
  clock (is_allowed_by_robots net lib rules_can_fetch self url w).2 = clock w.
Proof.
  unfold is_allowed_by_robots, rfp_read.
  destruct (robots_cache self !! robots_url_of lib url); [split; reflexivity|].
  io_unfold. cbn.
  destruct (net w (robots_url_of lib url)) as [status text| | |]; cbn;
    repeat match goal with |- context [if ?b then _ else _] => destruct b end;
    split; reflexivity.
Qed.

(** The robots check touches nothing of the fetcher but its robots cache. *)
Lemma is_allowed_keeps_config (self : PageFetcher) (url : string) (w : World) :
  max_retries (is_allowed_by_robots net lib rules_can_fetch self url w).1.1
    = max_retries self ∧
  visited_urls (is_allowed_by_robots net lib rules_can_fetch self url w).1.1
    = visited_urls self.
Proof.
  unfold is_allowed_by_robots, rfp_read.
  destruct (robots_cache self !! robots_url_of lib url); [split; reflexivity|].
  io_unfold. cbn.
  destruct (net w (robots_url_of lib url)) as [status text| | |]; cbn;
    repeat match goal with |- context [if ?b then _ else _] => destruct b end;
    split; reflexivity.
Qed.

(** When the robots.txt request cannot connect, [is_allowed_by_robots]
    answers "allowed" and caches nothing. *)
Lemma is_allowed_raise_open (self : PageFetcher) (url : string) (w : World) :
  robots_cache self !! robots_url_of lib url = None →
  no_connection (net w (robots_url_of lib url)) = true →
  (is_allowed_by_robots net lib rules_can_fetch self url w).1 = (self, true).
Proof.
  intros H Hf. unfold is_allowed_by_robots, rfp_read. rewrite H. io_unfold. cbn.
  destruct (net w (robots_url_of lib url)) as [status text| | |]; cbn in *;
    try reflexivity; discriminate.
Qed.

(** When robots.txt is answered with 401 or 403, the parser is cached with
    [disallow_all] set and the URL is refused. *)
Lemma is_allowed_forbidden_closed (self : PageFetcher) (url : string) (w : World)
    (status : Z) (text : string) :
  robots_cache self !! robots_url_of lib url = None →
  net w (robots_url_of lib url) = Response status text →
  status = 401 ∨ status = 403 →
  (is_allowed_by_robots net lib rules_can_fetch self url w).1.2 = false ∧
  robots_cache (is_allowed_by_robots net lib rules_can_fetch self url w).1.1
    !! robots_url_of lib url
    = Some (mkRobotFileParser true false false EmptyString).
Proof.
  intros H Hn Hs. unfold is_allowed_by_robots, rfp_read. rewrite H. io_unfold. cbn.
  rewrite Hn. destruct Hs as [-> | ->]; cbn; rewrite lookup_insert_eq; auto.
Qed.

(** Whenever the robots.txt request gets through, the parser is cached,
    whatever the status of the answer. *)
Lemma is_allowed_caches (self : PageFetcher) (url : string) (w : World) :
  robots_cache self !! robots_url_of lib url = None →
  no_connection (net w (robots_url_of lib url)) = false →
  is_Some (robots_cache (is_allowed_by_robots net lib rules_can_fetch self url w).1.1
             !! robots_url_of lib url).
Proof.
  intros H Hn. unfold is_allowed_by_robots, rfp_read. rewrite H. io_unfold. cbn.
  destruct (net w (robots_url_of lib url)) as [status text| | |]; cbn in *;
    try discriminate;
    repeat match goal with |- context [if ?b then _ else _] => destruct b end;
    cbn; rewrite lookup_insert_eq; eauto.
Qed.

Lemma is_allowed_all_cached (urls : list string) (self : PageFetcher) (w : World) :
  (∀ url, url ∈ urls → is_Some (robots_cache self !! robots_url_of lib url)) →
  is_allowed_all net lib rules_can_fetch self urls w = (self, w).
Proof.
  induction urls as [|url rest IH]; intros H; [reflexivity|].
  cbn [is_allowed_all]. io_unfold.
  destruct (H url) as [rp Hrp]; [left|].
  rewrite (is_allowed_cached self url w rp Hrp). cbn.
  apply IH. intros u Hu. apply H. right. exact Hu.
Qed.

End Fetcher.

(** C3, at the input where [PageFetcher.is_allowed_by_robots] departs from
    it.  The robots.txt of the host is answered with 403: the check refuses
    the page, [fetch] returns nothing without requesting it, and the
    refusing parser stays in the cache.  On the same host
    [PolitenessPolicy.can_fetch] allows the page. *)
Theorem forbidden_robots_fails_closed :
  (page_fetcher.is_allowed_by_robots Env.net_robots_403 Url.simple Env.rules_allow_all
     (page_fetcher.init "Bot" 10 3) "http://example.com/a" world0).1.2 = false ∧
  (page_fetcher.fetch Env.net_robots_403 Url.simple Env.rules_allow_all
     (page_fetcher.init "Bot" 10 3) "http://example.com/a" world0).1.2 = None ∧
  requested_urls
    (page_fetcher.fetch Env.net_robots_403 Url.simple Env.rules_allow_all
       (page_fetcher.init "Bot" 10 3) "http://example.com/a" world0).2
    = ["http://example.com/robots.txt"] ∧
  (politeness_policy.can_fetch float_int Env.net_robots_403 Url.simple
     (politeness_policy.init "Bot" 2) "http://example.com/a" world0).1.2 = true.
Proof. vm_compute. auto. Qed.




End RobotsCacheFacts.

(** ** [PageFetcher.fetch]: attempts and back-off *)

Module FetchFacts.

Import page_fetcher FetcherAux.

Section Fetch.

Variable net : Net.
Variable lib : UrlLib.
Variable rules_can_fetch : string → string → string → bool.

(** A failed attempt: one request, [attempt += 1], [sleep(2 ** attempt)]. *)
Lemma fetch_attempts_fail_step (url : string) (n : nat) (attempt : Z) (w : World) :
  attempt_fails (net w url) = true →
  fetch_attempts net (S n) attempt url w
  = fetch_attempts net n (attempt + 1) url
      (mkWorld (clock w + 2 ^ (attempt + 1))
               (requested w ++ [(clock w, url)])%list
               (slept w ++ [2 ^ (attempt + 1)])%list).
Proof.
  intros H. cbn [fetch_attempts]. io_unfold. cbn.
  destruct (net w url) as [status text| | |]; cbn in H; try reflexivity.
  rewrite H. reflexivity.
Qed.

(** The sleeps of a loop that starts at [attempt] and fails [n] times. *)
Lemma fetch_attempts_all_fail (url : string) (n : nat) :
  (∀ w, attempt_fails (net w url) = true) →
  ∀ (attempt : Z) (w : World),
    (fetch_attempts net n attempt url w).1 = None ∧
    slept (fetch_attempts net n attempt url w).2
      = (slept w ++ map (λ i, 2 ^ (attempt + 1 + Z.of_nat i)) (seq 0 n))%list ∧
    length (requested (fetch_attempts net n attempt url w).2)
      = (length (requested w) + n)%nat.
Proof.
  intros Hfail. induction n as [|n IH]; intros attempt w.
  - cbn. rewrite app_nil_r. auto.
  - rewrite (fetch_attempts_fail_step url n attempt w (Hfail w)).
    destruct (IH (attempt + 1)
                (mkWorld (clock w + 2 ^ (attempt + 1))
                   (requested w ++ [(clock w, url)])%list
                   (slept w ++ [2 ^ (attempt + 1)])%list)) as (H1 & H2 & H3).
    split; [exact H1|]. split.
    + rewrite H2. cbn [slept seq map].
      rewrite <- app_assoc. cbn [app]. f_equal. f_equal.
      * f_equal. lia.
      * rewrite <- seq_shift, map_map. apply map_ext. intros i. f_equal. lia.
    + rewrite H3. cbn [requested]. rewrite length_app. cbn. lia.
Qed.

Lemma backoff_schedule_two (n : nat) :
  map (λ i, 2 ^ (0 + 1 + Z.of_nat i)) (seq 0 n) = backoff_schedule 2 n.
Proof.
  unfold backoff_schedule. apply map_ext. intros i.
  replace (0 + 1 + Z.of_nat i) with (Z.succ (Z.of_nat i)) by lia.
  apply Z.pow_succ_r. lia.
Qed.

(** C5, as the code has it.  When the robots check lets the URL through
    and every attempt fails, [fetch] makes exactly [max_retries] requests
    for the URL, sleeps [2 * 2^i] seconds after failed attempt [i]
    (counted from 0; the base is the constant 2, and the last failed
    attempt is followed by a sleep too) and returns nothing. *)
Theorem fetch_backoff_schedule (self : PageFetcher) (url : string) (w : World) :
  (∀ w', attempt_fails (net w' url) = true) →
  (is_allowed_by_robots net lib rules_can_fetch self url w).1.2 = true →
  (fetch net lib rules_can_fetch self url w).1.2 = None ∧
  slept (fetch net lib rules_can_fetch self url w).2
    = (slept w ++ backoff_schedule 2 (Z.to_nat (max_retries self)))%list ∧
  length (requested (fetch net lib rules_can_fetch self url w).2)
    = (length (requested (is_allowed_by_robots net lib rules_can_fetch self url w).2)
       + Z.to_nat (max_retries self))%nat.
Proof.
  intros Hfail Hallowed.
  pose proof (RobotsCacheFacts.is_allowed_no_sleep net lib rules_can_fetch self url w)
    as [Hslept _].
  pose proof (RobotsCacheFacts.is_allowed_keeps_config net lib rules_can_fetch self url w)
    as [Hmr _].
  unfold fetch. io_unfold.
  destruct (is_allowed_by_robots net lib rules_can_fetch self url w)
    as [[self1 allowed] w1].
  cbn in Hallowed, Hslept, Hmr |- *. subst allowed. cbn.
  destruct (fetch_attempts_all_fail url (Z.to_nat (max_retries self1)) Hfail 0 w1)
    as (H1 & H2 & H3).
  destruct (fetch_attempts net (Z.to_nat (max_retries self1)) 0 url w1) as [content w2].
  cbn in *. rewrite backoff_schedule_two, Hslept in H2.
  rewrite Hmr in *. auto.
Qed.

End Fetch.

Lemma fetch_backoff_schedule_witness :
  slept (fetch Env.net_down Url.simple Env.rules_allow_all (init "Bot" 10 3)
           "http://example.com/a" world0).2
  = ([] ++ backoff_schedule 2 (Z.to_nat 3))%list.
Proof.
  apply (fetch_backoff_schedule Env.net_down Url.simple Env.rules_allow_all
           (init "Bot" 10 3) "http://example.com/a" world0).
  - intros w'. reflexivity.
  - reflexivity.
Defined.

(** The claim that the delays are 1 s, 2 s, 4 s for three attempts (base
    1 s) fails: against a host that refuses every connection, [fetch] with
    [max_retries = 3] makes three requests and sleeps 2 s, 4 s and 8 s. *)
Lemma fetch_backoff_starts_at_two :
  slept (fetch Env.net_down Url.simple Env.rules_allow_all (init "Bot" 10 3)
           "http://example.com/a" world0).2 = [2; 4; 8] ∧
  backoff_schedule 1 3 = [1; 2; 4] ∧
  slept (fetch Env.net_down Url.simple Env.rules_allow_all (init "Bot" 10 3)
           "http://example.com/a" world0).2 ≠ backoff_schedule 1 3 ∧
  requested_urls (fetch Env.net_down Url.simple Env.rules_allow_all (init "Bot" 10 3)
                    "http://example.com/a" world0).2
  = ["http://example.com/robots.txt"; "http://example.com/a";
     "http://example.com/a"; "http://example.com/a"].
Proof. vm_compute. repeat split; congruence. Qed.

End FetchFacts.

(** ** [PageFetcher.crawl] terminates *)

Module CrawlFacts.

Import page_fetcher CrawlAux.

Section Crawl.

Variable net : Net.
Variable lib : UrlLib.
Variable rules_can_fetch : string → string → string → bool.
Variable extract_links : string → list string.
Variable urljoin : string → string → string.

#[local] Abbreviation crawl_visit := (crawl_visit net lib rules_can_fetch extract_links urljoin).
#[local] Abbreviation crawl_loop := (crawl_loop net lib rules_can_fetch extract_links urljoin).
#[local] Abbreviation halts := (halts net lib rules_can_fetch extract_links urljoin).

(** New entries go to the back of the list, one level deeper. *)
Lemma enqueue_links_app (self : PageFetcher) (current_url : string) (depth : Z)
    (links : list string) :
  ∀ q, ∃ children,
    enqueue_links urljoin self current_url depth links q = (q ++ children)%list ∧
    Forall (λ e, e.2 = depth + 1) children.
Proof.
  induction links as [|link rest IH]; intros q.
  - exists []. rewrite app_nil_r. split; [reflexivity | constructor].
  - cbn [enqueue_links]. destruct (bool_decide _).
    + apply IH.
    + destruct (IH (q ++ [(urljoin current_url link, depth + 1)])%list)
        as (children & -> & Hall).
      exists ((urljoin current_url link, depth + 1) :: children).
      rewrite <- app_assoc. split; [reflexivity|]. constructor; [reflexivity | exact Hall].
Qed.

(** One iteration leaves the rest of the list in place and appends entries
    of strictly smaller rank; an entry of rank 0 appends nothing. *)
Lemma crawl_visit_shape (max_depth : Z) (self : PageFetcher) (current_url : string)
    (depth : Z) (rest : list (string * Z)) (w : World) :
  ∃ children,
    (crawl_visit max_depth self current_url depth rest w).1.2 = (rest ++ children)%list ∧
    Forall (λ e, (rank max_depth e < rank max_depth (current_url, depth))%nat) children.
Proof.
  unfold page_fetcher.crawl_visit.
  destruct (max_depth <? depth) eqn:Hd; cbn [orb].
  { exists []. rewrite app_nil_r. split; [reflexivity | constructor]. }
  destruct (has_visited self current_url).
  { exists []. rewrite app_nil_r. split; [reflexivity | constructor]. }
  io_unfold.
  destruct (fetch net lib rules_can_fetch self current_url w) as [[self1 content] w1].
  destruct content as [page|].
  - destruct (enqueue_links_app (add_visited self1 current_url) current_url depth
                (extract_links page) rest) as (children & Heq & Hall).
    exists children. cbn. split; [exact Heq|].
    apply Z.ltb_ge in Hd. eapply Forall_impl; [exact Hall|].
    intros [u d] Hu. cbn in Hu. subst d. unfold rank. cbn. lia.
  - exists []. rewrite app_nil_r. split; [reflexivity | constructor].
Qed.

Lemma halts_nil (max_depth : Z) (self : PageFetcher) (w : World) :
  halts max_depth self [] w.
Proof. exists 1%nat. cbn. eauto. Qed.

Lemma halts_cons (max_depth : Z) (self : PageFetcher) (current_url : string) (depth : Z)
    (rest : list (string * Z)) (w : World) :
  halts max_depth (crawl_visit max_depth self current_url depth rest w).1.1
        (crawl_visit max_depth self current_url depth rest w).1.2
        (crawl_visit max_depth self current_url depth rest w).2 →
  halts max_depth self ((current_url, depth) :: rest) w.
Proof.
  intros [fuel H]. exists (S fuel). cbn [page_fetcher.crawl_loop]. io_unfold.
  destruct (crawl_visit max_depth self current_url depth rest w) as [[self1 q1] w1].
  exact H.
Qed.

(** With [n] entries of the top rank [k] left in [q] and the loop known to
    halt on lists below rank [k], the loop halts on [q] followed by any
    entries below rank [k]. *)
Lemma halts_top (max_depth : Z) (k : nat)
    (IHk : ∀ q, Forall (λ e, (rank max_depth e < k)%nat) q → ∀ self w, halts max_depth self q w) :
  ∀ (n : nat) (q : list (string * Z)),
    count_rank max_depth k q = n →
    Forall (λ e, (rank max_depth e < S k)%nat) q →
    ∀ extra, Forall (λ e, (rank max_depth e < k)%nat) extra →
    ∀ self w, halts max_depth self (q ++ extra) w.
Proof.
  assert (Hvisit : ∀ q' extra self w cu d,
             (∀ extra', Forall (λ e, (rank max_depth e < k)%nat) extra' →
                        ∀ self' w', halts max_depth self' (q' ++ extra') w') →
             Forall (λ e, (rank max_depth e < k)%nat) extra →
             (rank max_depth (cu, d) < S k)%nat →
             halts max_depth self ((cu, d) :: q' ++ extra) w).
  { intros q' extra self w cu d Hrec Hextra Hr.
    apply halts_cons.
    destruct (crawl_visit_shape max_depth self cu d (q' ++ extra) w)
      as (children & -> & Hch).
    rewrite <- app_assoc. apply Hrec.
    apply Forall_app. split; [exact Hextra|].
    eapply Forall_impl; [exact Hch|]. cbn. intros e He. lia. }
  induction n as [|n IHn]; intros q; induction q as [|[cu d] q' IHq];
    intros Hcount Hall extra Hextra self w.
  - apply IHk. exact Hextra.
  - inversion Hall as [|? ? Hr Hall']; subst.
    unfold count_rank in Hcount. rewrite filter_cons in Hcount.
    destruct (decide (rank max_depth (cu, d) = k)); [discriminate|].
    cbn [app]. apply Hvisit; [|exact Hextra|exact Hr].
    intros extra' Hextra' self' w'. apply IHq; assumption.
  - discriminate.
  - inversion Hall as [|? ? Hr Hall']; subst.
    unfold count_rank in Hcount. rewrite filter_cons in Hcount.
    cbn [app]. apply Hvisit; [|exact Hextra|exact Hr].
    intros extra' Hextra' self' w'.
    destruct (decide (rank max_depth (cu, d) = k)).
    + cbn [length] in Hcount. apply IHn; [unfold count_rank; lia|assumption..].
    + apply IHq; assumption.
Qed.

Lemma halts_below (max_depth : Z) (k : nat) :
  ∀ q, Forall (λ e, (rank max_depth e < k)%nat) q → ∀ self w, halts max_depth self q w.
Proof.
  induction k as [|k IHk]; intros q Hall self w.
  - destruct q as [|e q]; [apply halts_nil|].
    inversion Hall as [|? ? Hr _]; subst. cbn in Hr. lia.
  - rewrite <- (app_nil_r q).
    eapply (halts_top max_depth k IHk); [reflexivity | exact Hall | constructor].
Qed.

Lemma halts_all (max_depth : Z) (self : PageFetcher) (q : list (string * Z)) (w : World) :
  halts max_depth self q w.
Proof.
  apply (halts_below max_depth (S (list_max (map (rank max_depth) q)))).
  apply Forall_forall. intros e He.
  assert (H : (rank max_depth e ≤ list_max (map (rank max_depth) q))%nat).
  { pose proof (list_max_le (map (rank max_depth) q)
                  (list_max (map (rank max_depth) q))) as [Hle _].
    specialize (Hle (Nat.le_refl _)).
    rewrite List.Forall_forall in Hle. apply Hle. apply in_map.
    apply list_elem_of_In. exact He. }
  lia.
Qed.

(** [crawl] returns: some number of iterations empties the list. *)
Lemma crawl_halts (self : PageFetcher) (start_url : string) (max_depth : Z) (w : World) :
  ∃ (fuel : nat) (self' : PageFetcher),
    (crawl net lib rules_can_fetch extract_links urljoin
       fuel self start_url max_depth w).1 = Some self'.
Proof.
  destruct (halts_all max_depth self [(start_url, 0)] w) as [fuel [self' H]].
  exists fuel, self'. exact H.
Qed.

End Crawl.

End CrawlFacts.

(** ** [CrawlerManager]: what the crawled set does and does not prevent *)

Module ManagerFacts.

Import crawler_manager ManagerAux.

Lemma init_fold (start_urls : list string) :
  ∀ st, url_queue (foldl put st start_urls) = (url_queue st ++ start_urls)%list ∧
        crawled_urls (foldl put st start_urls) = crawled_urls st ∧
        events (foldl put st start_urls) = (events st ++ map Put start_urls)%list.
Proof.
  induction start_urls as [|u rest IH]; intros st; cbn [foldl map].
  - rewrite !app_nil_r. auto.
  - destruct (IH (put st u)) as (H1 & H2 & H3). rewrite H1, H2, H3. cbn.
    rewrite <- !app_assoc. auto.
Qed.

Lemma init_spec (start_urls : list string) :
  url_queue (init start_urls) = start_urls ∧
  crawled_urls (init start_urls) = ∅ ∧
  events (init start_urls) = map Put start_urls.
Proof. apply (init_fold start_urls (mkCrawlerManager [] ∅ [])). Qed.

Lemma elem_of_insert_inv {A : Type} (l : list A) (i : nat) (x y : A) :
  y ∈ <[i := x]> l → y = x ∨ y ∈ l.
Proof.
  intros H. apply list_elem_of_lookup in H as [j Hj].
  apply list_lookup_insert_Some in Hj as [(_ & -> & _) | (_ & Hj)]; [left; reflexivity|].
  right. apply list_elem_of_lookup. eauto.
Qed.

Lemma no_put_after_mark_snoc (evs : list event) (e : event) :
  no_put_after_mark evs →
  (∀ u, e = Put u → Mark u ∉ evs) →
  no_put_after_mark (evs ++ [e]).
Proof.
  intros H He i j u Hi Hj.
  apply lookup_snoc_Some in Hi as [[Hi Hi'] | [Hi Hi']];
    apply lookup_snoc_Some in Hj as [[Hj Hj'] | [Hj Hj']]; subst.
  - eauto.
  - exfalso. apply (He u); [reflexivity|]. apply list_elem_of_lookup. eauto.
  - exact Hj.
  - discriminate.
Qed.

Section Run.

Variable page_fetcher_fetch : list string → string → result (option string).
Variable extract_links : string → list string.
Variable robots_parse : string → option (string → bool).

#[local] Abbreviation wstep := (wstep page_fetcher_fetch extract_links robots_parse).
#[local] Abbreviation step := (step page_fetcher_fetch extract_links robots_parse).

(** What one step of a worker can do to the log and to the crawled set. *)
Lemma wstep_effect (st st' : CrawlerManager) (p p' : pc) :
  wstep st p = Some (st', p') →
  (crawled_urls st' = crawled_urls st ∧ events st' = events st ∧
   (∀ u l, p' ≠ AtMark u l)) ∨
  (∃ u, p = AtCrawl u ∧ crawled_urls st' = crawled_urls st ∧
        events st' = (events st ++ [Fetch u])%list ∧
        (∀ u' l, p' = AtMark u' l → u' = u)) ∨
  (∃ u l, p = AtMark u l ∧ (u ∉ crawled_urls st) ∧
          crawled_urls st' = {[u]} ∪ crawled_urls st ∧
          events st' = (events st ++ [Mark u])%list ∧ p' = AtLinks l) ∨
  (∃ u l, p = AtLinks (u :: l) ∧ (u ∉ crawled_urls st) ∧
          crawled_urls st' = crawled_urls st ∧
          events st' = (events st ++ [Put u])%list ∧ p' = AtLinks l).
Proof.
  destruct p as [| |url|url new_urls|[|new_url rest]|]; cbn [crawler_manager.wstep].
  - destruct (url_queue st); intros [= <- <-]; left; auto.
  - destruct (url_queue st); [discriminate|]. intros [= <- <-]. left. auto.
  - destruct (can_crawl robots_parse url).
    + destruct (page_fetcher_fetch (fetched st) url) as [[page|]|e].
      * destruct (Py.truthy page); intros [= <- <-]; right; left;
          exists url; repeat split; congruence.
      * intros [= <- <-]. right. left. exists url. repeat split; congruence.
      * intros [= <- <-]. right. left. exists url. repeat split; congruence.
    + intros [= <- <-]. left. auto.
  - intros [= <- <-]. unfold mark.
    destruct (bool_decide (url ∈ crawled_urls st)) eqn:E.
    + left. auto.
    + apply bool_decide_eq_false in E. right. right. left.
      exists url, new_urls. auto.
  - intros [= <- <-]. left. auto.
  - destruct (bool_decide (new_url ∈ crawled_urls st)) eqn:E; intros [= <- <-].
    + left. auto.
    + apply bool_decide_eq_false in E. right. right. right.
      exists new_url, rest. auto.
  - discriminate.
Qed.

Lemma inv_init (start_urls : list string) (max_workers : nat) :
  inv (start_crawl start_urls max_workers).
Proof.
  destruct (init_spec start_urls) as (_ & Hc & He).
  unfold start_crawl. split; cbn [fst snd]; rewrite ?Hc, ?He.
  - intros i j u Hi _. apply list_lookup_fmap_Some in Hi as (? & ? & ?). discriminate.
  - intros u Hu. apply list_elem_of_fmap in Hu as (? & ? & ?). discriminate.
  - intros u Hu. apply not_elem_of_empty in Hu. destruct Hu.
  - intros u l Hu. apply elem_of_replicate in Hu as [? _]. discriminate.
Qed.

Lemma inv_step (sys sys' : system) : inv sys → step sys sys' → inv sys'.
Proof.
  intros [Ho Hm Hc Hp] Hstep.
  destruct Hstep as [st st' ps i p p' Hi Hw]. cbn [fst snd] in *.
  assert (Hin : p ∈ ps) by (apply list_elem_of_lookup; eauto).
  destruct (wstep_effect st st' p p' Hw)
    as [(Hcr & Hev & Hpc) | [(u & -> & Hcr & Hev & Hpc) |
        [(u & l & -> & Hu & Hcr & Hev & ->) | (u & l & -> & Hu & Hcr & Hev & ->)]]];
    split; cbn [fst snd]; rewrite ?Hcr, ?Hev.
  - exact Ho.
  - exact Hm.
  - exact Hc.
  - intros u l H. apply elem_of_insert_inv in H as [H|H]; [|eauto].
    exfalso. eapply Hpc. eauto.
  - apply no_put_after_mark_snoc; [exact Ho | discriminate].
  - intros v Hv. apply elem_of_app in Hv as [Hv|Hv]; [eauto|].
    apply list_elem_of_singleton in Hv. discriminate.
  - intros v Hv. rewrite !elem_of_app. destruct (Hc v Hv). auto.
  - intros v l H. apply elem_of_app.
    apply elem_of_insert_inv in H as [H|H]; [|left; eauto].
    right. symmetry in H. apply Hpc in H. subst. apply list_elem_of_singleton. reflexivity.
  - apply no_put_after_mark_snoc; [exact Ho | discriminate].
  - intros v Hv. apply elem_of_union.
    apply elem_of_app in Hv as [Hv|Hv]; [right; eauto|].
    apply list_elem_of_singleton in Hv. injection Hv as ->.
    left. apply elem_of_singleton. reflexivity.
  - intros v Hv. rewrite !elem_of_app. apply elem_of_union in Hv as [Hv|Hv].
    + apply elem_of_singleton in Hv. subst. split; [left; eauto|].
      right. apply list_elem_of_singleton. reflexivity.
    + destruct (Hc v Hv). auto.
  - intros v l' H. apply elem_of_app. left.
    apply elem_of_insert_inv in H as [H|H]; [discriminate | eauto].
  - apply no_put_after_mark_snoc; [exact Ho|].
    intros v [= ->] Hv. apply Hu. eauto.
  - intros v Hv. apply elem_of_app in Hv as [Hv|Hv]; [eauto|].
    apply list_elem_of_singleton in Hv. discriminate.
  - intros v Hv. rewrite !elem_of_app. destruct (Hc v Hv). auto.
  - intros v l' H. apply elem_of_app. left.
    apply elem_of_insert_inv in H as [H|H]; [discriminate | eauto].
Qed.

Lemma inv_reachable (start_urls : list string) (max_workers : nat) (sys : system) :
  rtc step (start_crawl start_urls max_workers) sys → inv sys.
Proof.
  intros H.
  refine (rtc_ind_r (R := step) (λ s, inv s) (start_crawl start_urls max_workers)
            (inv_init start_urls max_workers) _ sys H).
  intros y z _ Hyz Hy. exact (inv_step y z Hy Hyz).
Qed.

Lemma run_schedule_rtc (schedule : list nat) :
  ∀ sys sys', run_schedule page_fetcher_fetch extract_links robots_parse schedule sys
              = Some sys' → rtc step sys sys'.
Proof.
  induction schedule as [|i rest IH]; intros [st ps] sys'; cbn.
  - intros [= <-]. constructor.
  - destruct (ps !! i) as [p|] eqn:Hi; [|discriminate].
    destruct (crawler_manager.wstep _ _ _ st p) as [[st' p']|] eqn:Hw; [|discriminate].
    intros H. eapply rtc_l; [|apply IH; exact H].
    econstructor; eauto.
Qed.


End Run.

End ManagerFacts.

Module ManagerRunFacts.

Import crawler_manager ManagerAux ManagerRuns.



Lemma length_snoc (u : string) : String.length (u ++ "x") = S (String.length u).
Proof.
  induction u as [|c u IH]; [reflexivity|].
  change (S (String.length (u ++ "x")) = S (S (String.length u))).
  rewrite IH. reflexivity.
Qed.

Lemma snoc_nonempty (u : string) : u ++ "x" ≠ EmptyString.
Proof. destruct u; discriminate. Qed.

(** On the endless chain a worker in a chain state moves to a chain state. *)
Lemma chain_step (st : CrawlerManager) (p : pc) :
  chain_state st p →
  p ≠ Exited ∧
  ∃ st' p', wstep fetch_echo links_chain robots_none st p = Some (st', p') ∧
            chain_state st' p'.
Proof.
  intros (u & Hu & H).
  destruct p as [| |url|url new_urls|[|new_url [|? ?]]|]; try contradiction;
    (split; [discriminate|]); cbn [wstep].
  - destruct H as [Hq Hc]. rewrite Hq. eexists _, _. split; [reflexivity|].
    exists u. auto.
  - destruct H as [Hq Hc]. rewrite Hq. eexists _, _. split; [reflexivity|].
    exists u. cbn. auto.
  - destruct H as (-> & Hq & Hc). unfold can_crawl, robots_none, fetch_echo.
    assert (Ht : Py.truthy u = true) by (destruct u; [contradiction | reflexivity]).
    rewrite Ht. eexists _, _. split; [reflexivity|].
    exists u. cbn. auto.
  - destruct H as (-> & -> & Hq & Hc). eexists _, _. split; [reflexivity|].
    exists u. split; [exact Hu|]. split; [reflexivity|].
    unfold mark. destruct (bool_decide (u ∈ crawled_urls st)); cbn.
    + split; [exact Hq|]. intros v Hv. apply Hc in Hv. lia.
    + split; [exact Hq|]. intros v Hv. apply elem_of_union in Hv as [Hv|Hv].
      * apply elem_of_singleton in Hv. subst. lia.
      * apply Hc in Hv. lia.
  - destruct H as [Hq Hc]. eexists _, _. split; [reflexivity|].
    exists u. auto.
  - destruct H as (-> & Hq & Hc).
    assert (Hn : bool_decide (u ++ "x" ∈ crawled_urls st) = false).
    { apply bool_decide_eq_false. intros Hin. apply Hc in Hin.
      rewrite length_snoc in Hin. lia. }
    rewrite Hn. eexists _, _. split; [reflexivity|].
    exists (u ++ "x"). split; [apply snoc_nonempty|].
    cbn. rewrite Hq. split; [reflexivity|].
    intros v Hv. apply Hc in Hv. rewrite length_snoc. lia.
Qed.

Lemma chain_runs (fuel : nat) :
  ∀ st p, chain_state st p →
          run_worker fetch_echo links_chain robots_none fuel st p = OutOfFuel.
Proof.
  induction fuel as [|fuel IH]; intros st p H; [reflexivity|].
  destruct (chain_step st p H) as (Hp & st' & p' & Hw & H').
  cbn [run_worker]. rewrite Hw.
  destruct p; try (apply IH; exact H'). contradiction.
Qed.

(** A state from which no worker can move: the queue is empty and every
    worker has exited or waits in [get]. *)
Lemma stuck_when_waiting (fetch : list string → string → result (option string))
    (links : string → list string) (robots : string → option (string → bool))
    (st : CrawlerManager) (ps : list pc) :
  url_queue st = [] →
  Forall (λ p, p = Exited ∨ p = AtGet) ps →
  ∀ sys', ¬ step fetch links robots (st, ps) sys'.
Proof.
  intros Hq Hps sys' Hstep. inversion Hstep as [? st' ? i p p' Hi Hw]; subst.
  rewrite Forall_forall in Hps.
  destruct (Hps p) as [-> | ->].
  - apply list_elem_of_lookup. eauto.
  - discriminate.
  - cbn in Hw. rewrite Hq in Hw. discriminate.
Qed.


End ManagerRunFacts.

(** ** A single [CrawlerManager] worker on a finite site *)

Module ManagerTermination.

Import crawler_manager ManagerMeasure.

Lemma lt4_wf : well_founded lt4.
Proof.
  intros [[[a b] c] d]. revert b c d.
  induction a as [a IHa] using lt_wf_ind. intros b.
  induction b as [b IHb] using lt_wf_ind. intros c.
  induction c as [c IHc] using lt_wf_ind. intros d.
  induction d as [d IHd] using lt_wf_ind.
  constructor. intros [[[a' b'] c'] d'] H. cbn in H.
  destruct H as [H | [-> [H | [-> [H | [-> H]]]]]]; auto.
Qed.

Lemma uncrawled_mark (U : gset string) (C : gset string) (u : string) :
  u ∈ U → u ∉ C → (size (U ∖ ({[u]} ∪ C)) < size (U ∖ C))%nat.
Proof.
  intros HU HC. apply subset_size. split.
  - intros x Hx. apply elem_of_difference in Hx as [Hx1 Hx2].
    apply elem_of_difference. split; [exact Hx1|].
    intros Hc. apply Hx2. apply elem_of_union. right. exact Hc.
  - intros Hsub. assert (Hu : u ∈ U ∖ C) by (apply elem_of_difference; auto).
    apply Hsub in Hu. apply elem_of_difference in Hu as [_ Hu].
    apply Hu. apply elem_of_union. left. apply elem_of_singleton. reflexivity.
Qed.

Lemma count_split (st : CrawlerManager) (u : string) (q : list string) :
  (count_crawled st (u :: q) = (if bool_decide (u ∈ crawled_urls st) then 1 else 0)
                               + count_crawled st q)%nat ∧
  (count_fresh st (u :: q) = (if bool_decide (u ∈ crawled_urls st) then 0 else 1)
                             + count_fresh st q)%nat.
Proof.
  unfold count_crawled, count_fresh. rewrite !filter_cons.
  destruct (decide (u ∈ crawled_urls st)) as [Hin|Hin];
    destruct (decide (u ∉ crawled_urls st)) as [Hn|Hn]; try tauto.
  - rewrite bool_decide_eq_true_2 by assumption. cbn. auto.
  - rewrite bool_decide_eq_false_2 by assumption. cbn. auto.
Qed.

Lemma count_snoc_fresh (st : CrawlerManager) (u : string) (q : list string) :
  u ∉ crawled_urls st →
  count_crawled st (q ++ [u]) = count_crawled st q ∧
  count_fresh st (q ++ [u]) = S (count_fresh st q).
Proof.
  intros H. unfold count_crawled, count_fresh. rewrite !filter_app, !length_app.
  rewrite !filter_cons, !filter_nil.
  destruct (decide (u ∈ crawled_urls st)); [contradiction|].
  destruct (decide (u ∉ crawled_urls st)); [|contradiction].
  cbn. lia.
Qed.

Section Worker.

Variable page_fetcher_fetch : list string → string → result (option string).
Variable extract_links : string → list string.
Variable robots_parse : string → option (string → bool).
Variable U : gset string.
Hypothesis links_in_site : ∀ page u, u ∈ extract_links page → u ∈ U.

#[local] Abbreviation wstep := (wstep page_fetcher_fetch extract_links robots_parse).
#[local] Abbreviation run_worker :=
  (run_worker page_fetcher_fetch extract_links robots_parse).

(** A worker that has not exited can move, stays within the site, and
    its measure goes down. *)
Lemma wstep_decreases (st : CrawlerManager) (p : pc) :
  within U st p → p ≠ Exited →
  ∃ st' p', wstep st p = Some (st', p') ∧ within U st' p' ∧
            lt4 (measure U st' p') (measure U st p).
Proof.
  intros (Hq & Hp & Hget) Hne.
  destruct p as [| |url|url new_urls|[|new_url rest]|]; [| | | | | |contradiction];
    cbn [crawler_manager.wstep].
  - (* AtTest *)
    destruct (url_queue st) as [|u q] eqn:Eq; eexists _, _; (split; [reflexivity|]).
    + split.
      * repeat split; [rewrite Eq; exact Hq | exact Hp | discriminate].
      * unfold lt4, measure. cbn. lia.
    + split.
      * repeat split; [rewrite Eq; exact Hq | exact Hp | rewrite Eq; discriminate].
      * unfold lt4, measure. cbn. lia.
  - (* AtGet *)
    destruct (url_queue st) as [|u q] eqn:Eq; [exfalso; apply Hget; reflexivity|].
    eexists _, _. split; [reflexivity|]. split.
    + repeat split; cbn; [|intros v Hv; apply list_elem_of_singleton in Hv; subst|discriminate].
      * intros v Hv. apply Hq. right. exact Hv.
      * apply Hq. left.
    + unfold lt4, measure, uncrawled.
      cbn [set_queue url_queue crawled_urls pc_crawled pc_fresh pc_rank]. rewrite Eq.
      change (count_crawled (set_queue st q) q) with (count_crawled st q).
      change (count_fresh (set_queue st q) q) with (count_fresh st q).
      destruct (count_split st u q) as [-> ->].
      destruct (bool_decide (u ∈ crawled_urls st)); lia.
  - (* AtCrawl *)
    assert (Hdrop : within U st AtTest ∧ lt4 (measure U st AtTest) (measure U st (AtCrawl url))).
    { split; [repeat split; [exact Hq | intros v Hv; inversion Hv | discriminate]|].
      unfold lt4, measure. cbn. destruct (bool_decide (url ∈ crawled_urls st)); lia. }
    assert (Hlog : ∀ p', measure U (log st (Fetch url)) p' = measure U st p') by reflexivity.
    destruct (can_crawl robots_parse url); [|eexists _, _; split; [reflexivity | exact Hdrop]].
    destruct (page_fetcher_fetch (fetched st) url) as [[page|]|e];
      [|eexists _, _; split; [reflexivity|]; rewrite Hlog; exact Hdrop..].
    destruct (Py.truthy page);
      [|eexists _, _; split; [reflexivity|]; rewrite Hlog; exact Hdrop].
    eexists _, _. split; [reflexivity|]. rewrite Hlog. split.
    + repeat split; cbn; [exact Hq | | discriminate].
      intros v Hv. apply elem_of_cons in Hv as [->|Hv]; [apply Hp; left|].
      eapply links_in_site. exact Hv.
    + unfold lt4, measure. cbn. lia.
  - (* AtMark *)
    eexists _, _. split; [reflexivity|]. unfold mark.
    destruct (bool_decide (url ∈ crawled_urls st)) eqn:E.
    + split.
      * repeat split; cbn; [exact Hq | | discriminate].
        intros v Hv. apply Hp. right. exact Hv.
      * unfold lt4, measure. cbn. rewrite E. lia.
    + apply bool_decide_eq_false in E. split.
      * repeat split; cbn; [exact Hq | | discriminate].
        intros v Hv. apply Hp. right. exact Hv.
      * unfold lt4, measure, uncrawled. cbn [log crawled_urls]. left.
        apply uncrawled_mark; [apply Hp; left | exact E].
  - (* AtLinks [] *)
    eexists _, _. split; [reflexivity|]. split.
    + repeat split; [exact Hq | intros v Hv; inversion Hv | discriminate].
    + unfold lt4, measure. cbn. lia.
  - (* AtLinks (new_url :: rest) *)
    destruct (bool_decide (new_url ∈ crawled_urls st)) eqn:E;
      eexists _, _; (split; [reflexivity|]).
    + split.
      * repeat split; cbn; [exact Hq | | discriminate].
        intros v Hv. apply Hp. right. exact Hv.
      * unfold lt4, measure. cbn. lia.
    + apply bool_decide_eq_false in E. split.
      * repeat split; cbn; [| | discriminate].
        -- intros v Hv. apply elem_of_app in Hv as [Hv|Hv]; [apply Hq; exact Hv|].
           apply list_elem_of_singleton in Hv. subst. apply Hp. left.
        -- intros v Hv. apply Hp. right. exact Hv.
      * unfold lt4, measure, uncrawled.
        cbn [put log set_queue url_queue crawled_urls pc_crawled pc_fresh pc_rank].
        change (count_crawled (put st new_url) (url_queue st ++ [new_url]))
          with (count_crawled st (url_queue st ++ [new_url])).
        change (count_fresh (put st new_url) (url_queue st ++ [new_url]))
          with (count_fresh st (url_queue st ++ [new_url])).
        destruct (count_snoc_fresh st new_url (url_queue st) E) as [-> ->].
        cbn [length]. lia.
Qed.

(** From any state within the site the worker runs to its exit. *)
Lemma worker_exits (st : CrawlerManager) (p : pc) :
  within U st p → ∃ fuel st', run_worker fuel st p = Done st'.
Proof.
  remember (measure U st p) as m eqn:Hm. revert st p Hm.
  induction (lt4_wf m) as [m _ IH]. intros st p -> Hw.
  assert (Hcase : p = Exited ∨ p ≠ Exited) by (destruct p; auto; right; discriminate).
  destruct Hcase as [->|Hne].
  { exists 1%nat, st. reflexivity. }
  destruct (wstep_decreases st p Hw Hne) as (st' & p' & Hs & Hw' & Hlt).
  destruct (IH _ Hlt st' p' eq_refl Hw') as (fuel & st'' & Hrun).
  exists (S fuel), st''. cbn [crawler_manager.run_worker]. rewrite Hs.
  destruct p; try exact Hrun. contradiction.
Qed.

(** A single worker started on a site with finitely many URLs leaves its loop. *)
Lemma single_worker_terminates (start_urls : list string) :
  (∀ u, u ∈ start_urls → u ∈ U) →
  ∃ fuel st', run_worker fuel (init start_urls) AtTest = Done st'.
Proof.
  intros Hs. apply worker_exits.
  destruct (ManagerFacts.init_spec start_urls) as (Hq & _ & _).
  repeat split; [rewrite Hq; exact Hs | intros v Hv; inversion Hv | discriminate].
Qed.

End Worker.

End ManagerTermination.

(** ** Termination of the crawl loops *)

Module TerminationFacts.

Import ManagerAux.



End TerminationFacts.

(** * Further properties of the crawler code *)

(** ** [robots_parser]: fetching, accumulation, round trips, sitemaps *)

Module RobotsParserMore.

Import robots_parser RobotsAux RobotsFetchAux PyAux.

(** X1.  [fetch_robots] fails open and does not raise: when the request for
    robots.txt raises or is answered with a status other than 200, a fresh
    parser stays without rules after exactly one request, no exception
    leaves the method, and every URL is allowed. *)
Theorem fetch_robots_fail_open (net : Net) (lib : UrlLib) (ua robots_url url : string)
    (w : World) :
  robots_fetch_failed (net w robots_url) = true →
  (fetch_robots net (init ua) robots_url w).1 = (init ua, Ok tt) ∧
  requested_urls (fetch_robots net (init ua) robots_url w).2
    = (requested_urls w ++ [robots_url])%list ∧
  slept (fetch_robots net (init ua) robots_url w).2 = slept w ∧
  is_allowed lib (fetch_robots net (init ua) robots_url w).1.1 url = Ok true.
Proof.
  intros Hf. unfold fetch_robots, requested_urls. io_unfold. cbn.
  destruct (net w robots_url) as [status text| | |]; cbn in Hf |- *;
    try (rewrite fmap_app; auto).
  destruct (status =? 200); [discriminate|]. cbn. rewrite fmap_app. auto.
Qed.

Lemma fetch_robots_fail_open_witness :
  is_allowed Url.simple
    (fetch_robots Env.net_down (init "*") "http://example.com/robots.txt" world0).1.1
    "http://example.com/admin" = Ok true.
Proof.
  apply (fetch_robots_fail_open Env.net_down Url.simple "*"
           "http://example.com/robots.txt" "http://example.com/admin" world0).
  reflexivity.
Defined.

Lemma parse_rule_grows (self self' : RobotsParser) (line key : string) :
  _parse_rule self line = Ok self' →
  rules_of self key `prefix_of` rules_of self' key ∧
  sitemaps self' = sitemaps self ∧ user_agent self' = user_agent self.
Proof.
  unfold _parse_rule.
  repeat match goal with
         | |- context [if ?b then _ else _] => destruct b
         | |- context [match Py.int ?s with _ => _ end] => destruct (Py.int s)
         end; intros [= <-]; try (split; [reflexivity | auto]).
  all: split; [|auto]; rewrite RobotsParserFacts.rules_of_append;
    destruct (decide (_ = key)) as [<-|]; try reflexivity;
    apply prefix_app_r; reflexivity.
Qed.

Lemma parse_lines_grows (lines : list string) :
  ∀ (self : RobotsParser) (cua : option string) (key : string),
    rules_of self key `prefix_of` rules_of (parse_lines self cua lines).1 key ∧
    sitemaps self `prefix_of` sitemaps (parse_lines self cua lines).1 ∧
    user_agent (parse_lines self cua lines).1 = user_agent self.
Proof.
  induction lines as [|raw rest IH]; intros self cua key; [cbn; auto|].
  cbn [parse_lines].
  repeat match goal with
         | |- context [if ?b then _ else _] => destruct b
         end; try apply IH.
  - destruct (_parse_rule self (Py.strip raw)) as [self'|e] eqn:E; [|cbn; auto].
    destruct (parse_rule_grows self self' _ key E) as (H1 & H2 & H3).
    destruct (IH self' cua key) as (I1 & I2 & I3).
    rewrite H2 in I2. rewrite H3 in I3. split; [|auto]. etrans; eauto.
  - destruct (IH (add_sitemap self (value_of (Py.strip raw))) cua key) as (I1 & I2 & I3).
    split; [exact I1|]. split; [|exact I3].
    etrans; [|exact I2]. cbn. apply prefix_app_r. reflexivity.
Qed.

(** X2.  Parsing only adds: whatever text is parsed into a parser, the rules
    and sitemaps it held before are kept, in order, in front of the new
    ones (also when the parse ends in an exception), and the user agent is
    unchanged. *)
Theorem parse_robots_accumulates (self : RobotsParser) (robots_text key : string) :
  rules_of self key `prefix_of` rules_of (parse_robots self robots_text).1 key ∧
  sitemaps self `prefix_of` sitemaps (parse_robots self robots_text).1 ∧
  user_agent (parse_robots self robots_text).1 = user_agent self.
Proof. apply parse_lines_grows. Qed.

End RobotsParserMore.

Module RobotsRoundTrip.

Import robots_parser RobotsAux PyAux RoundTripAux.

Lemma append_snoc (cur l : string) (c : ascii) :
  (Py.snoc cur c ++ l)%string = (cur ++ String c l)%string.
Proof.
  unfold Py.snoc. induction cur as [|d cur IH]; [reflexivity|].
  change (String d ((cur ++ String c "") ++ l) = String d (cur ++ String c l)).
  f_equal. exact IH.
Qed.

Lemma append_empty_r (s : string) : (s ++ "")%string = s.
Proof.
  induction s as [|c s IH]; [reflexivity|].
  change (String c (s ++ "") = String c s). f_equal. exact IH.
Qed.

(** A line without line boundaries, ended by a line feed, is split off whole. *)
Lemma splitlines_from_line (l rest : string) :
  no_linebreak l = true →
  ∀ (cur : string) (open : bool),
    Py.splitlines_from cur open (l ++ String "010" rest)
    = (cur ++ l)%string :: Py.splitlines_from EmptyString false rest.
Proof.
  induction l as [|c l IH]; intros Hl cur open.
  - rewrite append_empty_r. cbn. destruct rest; reflexivity.
  - cbn [no_linebreak] in Hl. apply andb_true_iff in Hl as [Hc Hl].
    apply negb_true_iff in Hc.
    change (String c l ++ String "010" rest)%string
      with (String c (l ++ String "010" rest)).
    cbn [Py.splitlines_from]. rewrite Hc, (IH Hl), append_snoc. reflexivity.
Qed.

(** The last line, without a terminator. *)
Lemma splitlines_from_last (l : string) :
  no_linebreak l = true →
  ∀ (cur : string), Py.splitlines_from cur true l = [(cur ++ l)%string].
Proof.
  induction l as [|c l IH]; intros Hl cur.
  - rewrite append_empty_r. reflexivity.
  - cbn [no_linebreak] in Hl. apply andb_true_iff in Hl as [Hc Hl].
    apply negb_true_iff in Hc.
    cbn [Py.splitlines_from]. rewrite Hc, (IH Hl), append_snoc. reflexivity.
Qed.

Lemma splitlines_last (l : string) :
  no_linebreak l = true → l ≠ EmptyString → Py.splitlines l = [l].
Proof.
  intros Hl Hne. destruct l as [|c l]; [contradiction|].
  unfold Py.splitlines. cbn [no_linebreak] in Hl. apply andb_true_iff in Hl as [Hc Hl].
  apply negb_true_iff in Hc. cbn [Py.splitlines_from]. rewrite Hc.
  apply (splitlines_from_last l Hl).
Qed.

Lemma rstrip_app (s v : string) :
  Py.rstrip v = v → v ≠ EmptyString → Py.rstrip (s ++ v) = (s ++ v)%string.
Proof.
  intros Hv Hne. induction s as [|c s IH]; [exact Hv|].
  change (String c s ++ v)%string with (String c (s ++ v)).
  cbn [Py.rstrip]. rewrite IH.
  destruct (s ++ v)%string eqn:E; [|reflexivity].
  destruct s; cbn in E; [contradiction | discriminate].
Qed.

Lemma no_linebreak_app (a b : string) :
  no_linebreak a = true → no_linebreak b = true → no_linebreak (a ++ b) = true.
Proof.
  intros Ha Hb. induction a as [|c a IH]; [exact Hb|].
  change (String c a ++ b)%string with (String c (a ++ b)).
  cbn [no_linebreak] in Ha |- *. apply andb_true_iff in Ha as [Hc Ha].
  rewrite Hc, (IH Ha). reflexivity.
Qed.

(** Cutting [k ++ ":" ++ rest] at the first colon, [k] having none. *)
Lemma split_from_colon (k rest : string) :
  Re.mem ":" k = false →
  ∀ cur, ∃ tl, Py.split_from ":" cur (k ++ String ":" rest) = (cur ++ k)%string :: tl.
Proof.
  induction k as [|c k IH]; intros Hk cur.
  - rewrite append_empty_r. cbn. eauto.
  - cbn [Re.mem] in Hk. apply orb_false_iff in Hk as [Hc Hk].
    change (String c k ++ String ":" rest)%string with (String c (k ++ String ":" rest)).
    cbn [Py.split_from]. rewrite Ascii.eqb_sym, Hc.
    destruct (IH Hk (Py.snoc cur c)) as [tl ->]. rewrite append_snoc. eauto.
Qed.

Lemma after_first_colon (k rest : string) :
  Re.mem ":" k = false → Py.after_first ":" (k ++ String ":" rest) = Some rest.
Proof.
  induction k as [|c k IH]; intros Hk; [reflexivity|].
  cbn [Re.mem] in Hk. apply orb_false_iff in Hk as [Hc Hk].
  change (String c k ++ String ":" rest)%string with (String c (k ++ String ":" rest)).
  cbn [Py.after_first]. rewrite Ascii.eqb_sym, Hc. exact (IH Hk).
Qed.

(** The value of a line [key: value] whose value is clean. *)
Lemma value_of_line (k v : string) :
  Re.mem ":" k = false → Py.lstrip v = v → Py.rstrip v = v →
  value_of (k ++ String ":" (String " " v)) = v.
Proof.
  intros Hk Hl Hr. unfold value_of, Py.split1, Py.split.
  destruct (split_from_colon k (String " " v) Hk EmptyString) as [tl ->].
  rewrite (after_first_colon k _ Hk). cbn [Py.item1 nth]. unfold Py.strip.
  change (Py.lstrip (String " " v)) with (Py.lstrip v). rewrite Hl. exact Hr.
Qed.

Lemma rstrip_cons (c : ascii) (v : string) :
  Py.rstrip v = v → v ≠ EmptyString → Py.rstrip (String c v) = String c v.
Proof.
  intros Hr Hne. cbn [Py.rstrip]. rewrite Hr. destruct v; [contradiction | reflexivity].
Qed.

(** A line [Key: value] whose key starts with a letter survives [strip]. *)
Lemma strip_line (c : ascii) (k v : string) :
  Py.is_space c = false → Py.rstrip v = v → v ≠ EmptyString →
  Py.strip (String c k ++ String ":" (String " " v))
  = (String c k ++ String ":" (String " " v))%string.
Proof.
  intros Hc Hr Hne. unfold Py.strip.
  assert (Hl : Py.lstrip (String c k ++ String ":" (String " " v))
               = (String c k ++ String ":" (String " " v))%string).
  { change (String c k ++ String ":" (String " " v))%string
      with (String c (k ++ String ":" (String " " v))).
    cbn [Py.lstrip]. rewrite Hc. reflexivity. }
  rewrite Hl. apply rstrip_app; [|discriminate].
  apply rstrip_cons; [|discriminate]. apply rstrip_cons; assumption.
Qed.

Lemma disallow_line (self : RobotsParser) (v : string) :
  clean_value v →
  Py.strip ("Disallow: " ++ v) = ("Disallow: " ++ v)%string ∧
  _parse_rule self ("Disallow: " ++ v)
    = Ok (set_rules self (rules_append "disallow" (Re.escape v) (rules self))).
Proof.
  intros (Hne & Hl & Hr & _). split.
  - apply (strip_line "D" "isallow" v); [reflexivity | assumption..].
  - unfold _parse_rule.
    assert (Hv : value_of ("Disallow: " ++ v) = v)
      by exact (value_of_line "Disallow" v eq_refl Hl Hr).
    rewrite Hv.
    change (Py.startswith (Py.lower ("Disallow: " ++ v)) "disallow:") with true.
    cbn iota. destruct v; [contradiction | reflexivity].
Qed.

Lemma allow_line (self : RobotsParser) (v : string) :
  clean_value v →
  Py.strip ("Allow: " ++ v) = ("Allow: " ++ v)%string ∧
  _parse_rule self ("Allow: " ++ v)
    = Ok (set_rules self (rules_append "allow" (Re.escape v) (rules self))).
Proof.
  intros (Hne & Hl & Hr & _). split.
  - apply (strip_line "A" "llow" v); [reflexivity | assumption..].
  - unfold _parse_rule.
    assert (Hv : value_of ("Allow: " ++ v) = v)
      by exact (value_of_line "Allow" v eq_refl Hl Hr).
    rewrite Hv.
    change (Py.startswith (Py.lower ("Allow: " ++ v)) "disallow:") with false.
    change (Py.startswith (Py.lower ("Allow: " ++ v)) "allow:") with true.
    cbn iota. destruct v; [contradiction | reflexivity].
Qed.

Lemma two_rule_lines (d a : string) :
  clean_value d → clean_value a →
  Py.splitlines (two_rule_txt d a) = ["User-agent: *"; "Disallow: " ++ d; "Allow: " ++ a].
Proof.
  intros (_ & _ & _ & Hd) (_ & _ & _ & Ha).
  change (Py.splitlines_from EmptyString false
            ("User-agent: *" ++
             String "010" (("Disallow: " ++ d) ++ String "010" ("Allow: " ++ a)))
          = ["User-agent: *"; "Disallow: " ++ d; "Allow: " ++ a]).
  rewrite (splitlines_from_line "User-agent: *" _ eq_refl).
  rewrite (splitlines_from_line ("Disallow: " ++ d)).
  2: { apply (no_linebreak_app "Disallow: " d); [reflexivity | exact Hd]. }
  f_equal. f_equal. apply splitlines_last; [|discriminate].
  apply (no_linebreak_app "Allow: " a); [reflexivity | exact Ha].
Qed.



End RobotsRoundTrip.

Module SitemapFacts.

Import robots_parser RobotsAux PyAux RoundTripAux.

(** A [Sitemap:] line is a rule line of no kind [_parse_rule] knows. *)
Lemma sitemap_line (self : RobotsParser) (line : string) :
  Py.startswith (Py.lower line) "sitemap:" = true →
  Py.truthy line = true ∧
  Py.startswith line "#" = false ∧
  Py.startswith (Py.lower line) "user-agent:" = false ∧
  _parse_rule self line = Ok self.
Proof.
  intros H. destruct (CrawlDelayFacts.lower_starts _ _ _ H) as (d & rest & -> & Hd).
  unfold _parse_rule, Py.startswith. cbn [Py.lower Py.truthy String.prefix]. rewrite Hd.
  repeat split; try reflexivity.
  destruct (ascii_dec "#" d) as [<-|]; [|reflexivity].
  vm_compute in Hd. discriminate.
Qed.



End SitemapFacts.

(** ** [PageFetcher]: what [fetch] and [crawl] do under any network *)

Module FetchMore.

Import page_fetcher FetcherAux.

Section Fetch.

Variable net : Net.
Variable lib : UrlLib.
Variable rules_can_fetch : string → string → string → bool.

(** The retry loop under any network: [k] failed attempts, each followed
    by its sleep, then either a served body or the end of the budget. *)
Lemma fetch_attempts_any (url : string) (n : nat) :
  ∀ (attempt : Z) (w : World),
    ∃ k : nat,
      (k ≤ n)%nat ∧
      slept (fetch_attempts net n attempt url w).2
        = (slept w ++ map (λ i, 2 ^ (attempt + 1 + Z.of_nat i)) (seq 0 k))%list ∧
      requested_urls (fetch_attempts net n attempt url w).2
        = (requested_urls w ++
           replicate (match (fetch_attempts net n attempt url w).1 with
                      | Some _ => S k
                      | None => k
                      end) url)%list ∧
      match (fetch_attempts net n attempt url w).1 with
      | Some text =>
          (k < n)%nat ∧
          ∃ w' status, net w' url = Response status text ∧ is_error_status status = false
      | None => k = n
      end.
Proof.
  induction n as [|n IH]; intros attempt w.
  { exists 0%nat. cbn. rewrite !app_nil_r. auto. }
  destruct (attempt_fails (net w url)) eqn:Hf.
  - rewrite (FetchFacts.fetch_attempts_fail_step net url n attempt w Hf).
    set (w1 := mkWorld (clock w + 2 ^ (attempt + 1))
                 (requested w ++ [(clock w, url)])%list
                 (slept w ++ [2 ^ (attempt + 1)])%list).
    destruct (IH (attempt + 1) w1) as (k & Hk & Hs & Hr & Hres).
    exists (S k). split; [lia|]. split; [|split].
    + rewrite Hs. subst w1. cbn [slept seq map].
      rewrite <- app_assoc. cbn [app]. f_equal. f_equal.
      * f_equal. lia.
      * rewrite <- seq_shift, map_map. apply map_ext. intros i. f_equal. lia.
    + rewrite Hr. subst w1. unfold requested_urls. cbn [requested].
      rewrite fmap_app, <- app_assoc. cbn.
      destruct (fetch_attempts net n (attempt + 1) url _).1; reflexivity.
    + destruct (fetch_attempts net n (attempt + 1) url w1).1.
      * destruct Hres as [Hlt Hex]. split; [lia | exact Hex].
      * lia.
  - exists 0%nat. cbn [fetch_attempts]. io_unfold. cbn.
    destruct (net w url) as [status text| | |] eqn:En; cbn in Hf; try discriminate.
    rewrite Hf. cbn. rewrite app_nil_r. split; [lia|]. split; [reflexivity|].
    split; [unfold requested_urls; cbn; rewrite fmap_app; reflexivity|].
    split; [lia|]. eauto.
Qed.

(** X5.  The budget of [fetch], whatever the network does.  After the robots
    check, [fetch] requests nothing but the URL itself, at most
    [max_retries] times; it sleeps 2 s, 4 s, 8 s, ... after each failed
    attempt and never after a successful one; it gives up only when the
    robots check refuses (then without any request for the page) or when
    all [max_retries] attempts have failed. *)
Theorem fetch_budget (self : PageFetcher) (url : string) (w : World) :
  ∃ k : nat,
    (k ≤ Z.to_nat (max_retries self))%nat ∧
    slept (fetch net lib rules_can_fetch self url w).2
      = (slept w ++ backoff_schedule 2 k)%list ∧
    requested_urls (fetch net lib rules_can_fetch self url w).2
      = (requested_urls (is_allowed_by_robots net lib rules_can_fetch self url w).2 ++
         replicate (match (fetch net lib rules_can_fetch self url w).1.2 with
                    | Some _ => S k
                    | None => k
                    end) url)%list ∧
    match (fetch net lib rules_can_fetch self url w).1.2 with
    | Some _ =>
        (is_allowed_by_robots net lib rules_can_fetch self url w).1.2 = true ∧
        (k < Z.to_nat (max_retries self))%nat
    | None =>
        if (is_allowed_by_robots net lib rules_can_fetch self url w).1.2
        then k = Z.to_nat (max_retries self)
        else k = 0%nat
    end.
Proof.
  pose proof (RobotsCacheFacts.is_allowed_no_sleep net lib rules_can_fetch self url w)
    as [Hslept _].
  pose proof (RobotsCacheFacts.is_allowed_keeps_config net lib rules_can_fetch self url w)
    as [Hmr _].
  unfold fetch. io_unfold.
  destruct (is_allowed_by_robots net lib rules_can_fetch self url w)
    as [[self1 allowed] w1].
  cbn in Hslept, Hmr |- *. destruct allowed; cbn.
  - destruct (fetch_attempts_any url (Z.to_nat (max_retries self1)) 0 w1)
      as (k & Hk & Hs & Hr & Hres).
    destruct (fetch_attempts net (Z.to_nat (max_retries self1)) 0 url w1)
      as [content w2].
    cbn in *. rewrite Hmr in *. exists k. split; [exact Hk|].
    rewrite FetchFacts.backoff_schedule_two, Hslept in Hs.
    split; [exact Hs|]. split; [exact Hr|].
    destruct content; [destruct Hres; auto | exact Hres].
  - exists 0%nat. cbn. rewrite !app_nil_r. split; [lia|]. auto.
Qed.

Lemma fetch_served (self : PageFetcher) (url text : string) (w : World) :
  (fetch net lib rules_can_fetch self url w).1.2 = Some text →
  ∃ (w' : World) (status : Z),
    net w' url = Response status text ∧ is_error_status status = false ∧
    url ∈ requested_urls (fetch net lib rules_can_fetch self url w).2.
Proof.
  unfold fetch. io_unfold.
  destruct (is_allowed_by_robots net lib rules_can_fetch self url w)
    as [[self1 allowed] w1].
  destruct allowed; cbn; [|discriminate].
  destruct (fetch_attempts_any url (Z.to_nat (max_retries self1)) 0 w1)
    as (k & _ & _ & Hr & Hres).
  destruct (fetch_attempts net (Z.to_nat (max_retries self1)) 0 url w1)
    as [content w2].
  cbn in *. intros ->. destruct Hres as (_ & w' & status & Hn & He).
  exists w', status. split; [exact Hn|]. split; [exact He|].
  rewrite Hr. apply elem_of_app. right. left.
Qed.


End Fetch.


End FetchMore.

Module CrawlMore.

Import page_fetcher FetcherAux FetcherGrowth.

Lemma grows_refl (self : PageFetcher) (w : World) : grows self w self w.
Proof.
  split; [reflexivity|]. split; [auto|]. split; [reflexivity|].
  split; [reflexivity|]. split; [lia|]. split; reflexivity.
Qed.

Lemma grows_trans (s1 s2 s3 : PageFetcher) (w1 w2 w3 : World) :
  grows s1 w1 s2 w2 → grows s2 w2 s3 w3 → grows s1 w1 s3 w3.
Proof.
  intros (A1 & A2 & A3 & A4 & A5 & A6 & A7) (B1 & B2 & B3 & B4 & B5 & B6 & B7).
  split; [etrans; eauto|]. split.
  { intros u Hu. destruct (B2 u Hu) as [H|H]; [|auto].
    destruct (A2 u H) as [H'|H']; [auto|]. right.
    destruct B3 as [l ->]. apply elem_of_app. auto. }
  split; [etrans; eauto|]. split; [etrans; eauto|]. split; [lia|].
  split; [etrans; eauto|]. congruence.
Qed.

Section Crawl.

Variable net : Net.
Variable lib : UrlLib.
Variable rules_can_fetch : string → string → string → bool.
Variable extract_links : string → list string.
Variable urljoin : string → string → string.

Lemma is_allowed_grows (self : PageFetcher) (url : string) (w : World) :
  grows self w (is_allowed_by_robots net lib rules_can_fetch self url w).1.1
               (is_allowed_by_robots net lib rules_can_fetch self url w).2.
Proof.
  unfold is_allowed_by_robots, rfp_read.
  destruct (robots_cache self !! robots_url_of lib url) eqn:E; [apply grows_refl|].
  io_unfold. cbn.
  assert (Hreq : requested_urls w `prefix_of`
            requested_urls (mkWorld (clock w)
                              (requested w ++ [(clock w, robots_url_of lib url)])%list
                              (slept w))).
  { unfold requested_urls. cbn. rewrite fmap_app. apply prefix_app_r. reflexivity. }
  destruct (net w (robots_url_of lib url)) as [status text| | |]; cbn;
    repeat match goal with |- context [if ?b then _ else _] => destruct b end; cbn;
    (split; [reflexivity|]); (split; [auto|]); (split; [exact Hreq|]);
    (split; [reflexivity|]); (split; [cbn; lia|]); (split; [|reflexivity]);
    first [reflexivity | apply insert_subseteq; exact E].
Qed.

Lemma fetch_attempts_clock (url : string) (n : nat) :
  ∀ (attempt : Z) (w : World), clock w ≤ clock (fetch_attempts net n attempt url w).2.
Proof.
  induction n as [|n IH]; intros attempt w; [cbn; lia|].
  destruct (attempt_fails (net w url)) eqn:Hf.
  - rewrite (FetchFacts.fetch_attempts_fail_step net url n attempt w Hf).
    etrans; [|apply IH]. cbn. pose proof (Z.pow_nonneg 2 (attempt + 1)). lia.
  - cbn [fetch_attempts]. io_unfold. cbn.
    destruct (net w url) as [status text| | |]; cbn in Hf; try discriminate.
    rewrite Hf. cbn. lia.
Qed.

Lemma fetch_grows (self : PageFetcher) (url : string) (w : World) :
  grows self w (fetch net lib rules_can_fetch self url w).1.1
               (fetch net lib rules_can_fetch self url w).2 ∧
  visited_urls (fetch net lib rules_can_fetch self url w).1.1 = visited_urls self.
Proof.
  pose proof (is_allowed_grows self url w) as Hg.
  pose proof (RobotsCacheFacts.is_allowed_keeps_config net lib rules_can_fetch self url w)
    as [_ Hv].
  unfold fetch. io_unfold.
  destruct (is_allowed_by_robots net lib rules_can_fetch self url w)
    as [[self1 allowed] w1].
  cbn in Hg, Hv |- *. destruct allowed; cbn; [|auto].
  destruct (FetchMore.fetch_attempts_any net url (Z.to_nat (max_retries self1)) 0 w1)
    as (k & _ & Hs & Hr & _).
  pose proof (fetch_attempts_clock url (Z.to_nat (max_retries self1)) 0 w1) as Hc.
  destruct (fetch_attempts net (Z.to_nat (max_retries self1)) 0 url w1) as [content w2].
  cbn in *. split; [|exact Hv].
  eapply grows_trans; [exact Hg|].
  split; [reflexivity|]. split; [auto|].
  split; [rewrite Hr; apply prefix_app_r; reflexivity|].
  split; [rewrite Hs; apply prefix_app_r; reflexivity|].
  split; [exact Hc|]. split; reflexivity.
Qed.

Lemma crawl_visit_grows (max_depth : Z) (self : PageFetcher) (current_url : string)
    (depth : Z) (rest : list (string * Z)) (w : World) :
  grows self w
    (crawl_visit net lib rules_can_fetch extract_links urljoin
       max_depth self current_url depth rest w).1.1
    (crawl_visit net lib rules_can_fetch extract_links urljoin
       max_depth self current_url depth rest w).2.
Proof.
  unfold crawl_visit.
  destruct ((max_depth <? depth) || has_visited self current_url); [apply grows_refl|].
  io_unfold.
  destruct (fetch_grows self current_url w) as [Hg Hv].
  pose proof (FetchMore.fetch_served net lib rules_can_fetch self current_url) as Hserved.
  specialize (fun text => Hserved text w).
  destruct (fetch net lib rules_can_fetch self current_url w) as [[self1 content] w1].
  cbn in Hg, Hv, Hserved |- *. destruct content as [page|]; cbn; [|exact Hg].
  destruct (Hserved page eq_refl) as (_ & _ & _ & _ & Hin).
  destruct Hg as (A1 & A2 & A3 & A4 & A5 & A6 & A7).
  split; [cbn; etrans; [exact A1|]; apply union_subseteq_r|].
  split.
  { cbn. intros u Hu. apply elem_of_union in Hu as [Hu|Hu].
    - apply elem_of_singleton in Hu. subst. auto.
    - auto. }
  auto.
Qed.

Lemma crawl_loop_grows (max_depth : Z) (fuel : nat) :
  ∀ (self : PageFetcher) (q : list (string * Z)) (w : World) (self' : PageFetcher),
    (crawl_loop net lib rules_can_fetch extract_links urljoin fuel max_depth self q w).1
      = Some self' →
    grows self w self'
      (crawl_loop net lib rules_can_fetch extract_links urljoin fuel max_depth self q w).2.
Proof.
  induction fuel as [|fuel IH]; intros self q w self'; [discriminate|].
  cbn [crawl_loop]. destruct q as [|[current_url depth] rest].
  - cbn. intros [= <-]. apply grows_refl.
  - io_unfold.
    pose proof (crawl_visit_grows max_depth self current_url depth rest w) as Hg.
    destruct (crawl_visit net lib rules_can_fetch extract_links urljoin
                max_depth self current_url depth rest w) as [[self1 q1] w1].
    cbn in Hg |- *. intros H. eapply grows_trans; [exact Hg|]. apply IH. exact H.
Qed.


(** X8.  A list of entries that are all too deep or already visited is
    dropped without a single request: the loop ends with the fetcher and
    the world as they were.  In particular [crawl] with a negative
    [max_depth], or from a start URL already visited, fetches nothing. *)
Theorem crawl_skips_deep_and_visited (max_depth : Z) (self : PageFetcher)
    (q : list (string * Z)) (w : World) :
  Forall (λ e, max_depth < e.2 ∨ e.1 ∈ visited_urls self) q →
  crawl_loop net lib rules_can_fetch extract_links urljoin
    (S (length q)) max_depth self q w = (Some self, w).
Proof.
  induction q as [|[u d] q IH]; intros Hall; [reflexivity|].
  inversion Hall as [|? ? Hhd Htl]; subst.
  change (length ((u, d) :: q)) with (S (length q)).
  cbn [crawl_loop]. io_unfold. unfold crawl_visit, has_visited.
  assert (Hskip : (max_depth <? d) || bool_decide (u ∈ visited_urls self) = true).
  { cbn in Hhd. destruct Hhd as [Hd|Hv].
    - apply Z.ltb_lt in Hd. rewrite Hd. reflexivity.
    - rewrite (bool_decide_eq_true_2 _ Hv). apply orb_true_r. }
  rewrite Hskip. cbn. exact (IH Htl).
Qed.

End Crawl.


Lemma crawl_skips_deep_and_visited_witness :
  crawl (Env.net_status 200) Url.simple Env.rules_allow_all (λ _, []) (λ _ link, link)
    2 (init "Bot" 10 3) "http://example.com/" (-1) world0
  = (Some (init "Bot" 10 3), world0).
Proof.
  apply (crawl_skips_deep_and_visited (Env.net_status 200) Url.simple Env.rules_allow_all
           (λ _, []) (λ _ link, link) (-1) (init "Bot" 10 3)
           [("http://example.com/", 0)] world0).
  constructor; [left; cbn; lia | constructor].
Defined.

End CrawlMore.

(** ** [politeness_policy]: sleeps, refusals and unreadable robots.txt *)

Module PolitenessMore.

Import politeness_policy PolitenessAux RobotsAux PolitenessRuns.

(** X9.  What one politeness wait does.  [respect_delay] calls [time.sleep] at
    most once and never with a length that is not positive; the length is
    at most the configured delay unless the recorded access lies in the
    future.  It records the time read on entry for the host of the URL and
    leaves the records of all other hosts, the robots cache and the
    configured delay as they were. *)
Theorem respect_delay_effect (lib : UrlLib) (self : PolitenessPolicy) (url : string)
    (w : World) :
  (slept (respect_delay lib self url w).2 = slept w ∨
   ∃ d, slept (respect_delay lib self url w).2 = (slept w ++ [d])%list ∧ 0 < d ∧
        clock (respect_delay lib self url w).2 = clock w + d ∧
        ∀ last, last_access_times self !! url_netloc lib url = Some last →
                last ≤ clock w → d ≤ delay self) ∧
  last_access_times (respect_delay lib self url w).1 !! url_netloc lib url
    = Some (clock w) ∧
  (∀ host, host ≠ url_netloc lib url →
     last_access_times (respect_delay lib self url w).1 !! host
     = last_access_times self !! host) ∧
  robots_cache (respect_delay lib self url w).1 = robots_cache self ∧
  delay (respect_delay lib self url w).1 = delay self.
Proof.
  unfold respect_delay. io_unfold. cbn.
  split.
  - destruct (last_access_times self !! url_netloc lib url) as [last|]; [|left; reflexivity].
    destruct (clock w - last <? delay self) eqn:E; cbn; [|left; reflexivity].
    apply Z.ltb_lt in E. right. exists (delay self - (clock w - last)).
    split; [reflexivity|]. split; [lia|]. split; [reflexivity|].
    intros last' [= <-] Hle. lia.
  - assert (Hst : ∀ x : unit * World,
              (let '(_, w') := x in (touch self (url_netloc lib url) (clock w), w')).1
              = touch self (url_netloc lib url) (clock w)) by (intros [[] ?]; reflexivity).
    rewrite Hst. cbn. split; [apply lookup_insert_eq|].
    split; [|auto]. intros host Hne. apply lookup_insert_ne. congruence.
Qed.

Section Manager.

Variable float : string → option Z.
Variable net : Net.
Variable lib : UrlLib.

(** X10.  URLs refused by cached robots rules cost nothing: a run of
    [fetch_page] over URLs whose host is cached with a disallowed path
    that is a prefix of the URL's path issues no request, does not
    sleep, and leaves the policy as it was. *)
Theorem refused_pages_cost_nothing (policy : PolitenessPolicy) (urls : list string)
    (w : World) :
  Forall (λ url, ∃ rp, robots_cache policy !! url_netloc lib url = Some rp ∧
                       rp_can_fetch lib rp (user_agent policy) url = false) urls →
  fetch_pages float net lib policy urls w = (policy, w) ∧
  Forall (λ url, fetch_page float net lib policy url w = ((policy, None), w)) urls.
Proof.
  intros Hall.
  assert (Hone : ∀ url, (∃ rp, robots_cache policy !! url_netloc lib url = Some rp ∧
                               rp_can_fetch lib rp (user_agent policy) url = false) →
                        fetch_page float net lib policy url w = ((policy, None), w)).
  { intros url (rp & Hc & Hr). unfold fetch_page. io_unfold.
    rewrite (RobotsCacheFacts.can_fetch_cached float net lib policy url w rp Hc).
    rewrite Hr. reflexivity. }
  split.
  - induction Hall as [|url rest Hu _ IH]; [reflexivity|].
    cbn [fetch_pages]. io_unfold. rewrite (Hone url Hu). exact IH.
  - eapply Forall_impl; [exact Hall|]. exact Hone.
Qed.


End Manager.

Lemma refused_pages_cost_nothing_witness :
  fetch_pages float_int Env.net_down Url.simple admin_policy
    ["http://example.com/admin"; "http://example.com/admin/users"] world0
  = (admin_policy, world0).
Proof.
  apply (refused_pages_cost_nothing float_int Env.net_down Url.simple admin_policy
           ["http://example.com/admin"; "http://example.com/admin/users"] world0).
  repeat constructor;
    exists (mkRobotsParser "Bot" ["/admin"] None); split; reflexivity.
Defined.


End PolitenessMore.

(** ** [CrawlerManager]: what holds in every interleaving *)

Module ManagerMore.

Import crawler_manager ManagerAux ManagerRuns ManagerCounts.

Lemma filter_length_insert {A : Type} (P : A → Prop) `{∀ x, Decision (P x)}
    (l : list A) :
  ∀ (i : nat) (x y : A),
    l !! i = Some x →
    (length (filter P (<[i := y]> l)) + (if decide (P x) then 1 else 0)
     = length (filter P l) + (if decide (P y) then 1 else 0))%nat.
Proof.
  induction l as [|a l IH]; intros i x y Hi; [discriminate|].
  destruct i as [|i]; cbn in Hi.
  - injection Hi as ->. change (<[0%nat := y]> (x :: l)) with (y :: l).
    rewrite !filter_cons.
    destruct (decide (P x)), (decide (P y)); cbn [length]; lia.
  - change (<[S i := y]> (a :: l)) with (a :: <[i := y]> l).
    rewrite !filter_cons. specialize (IH i x y Hi).
    destruct (decide (P a)); cbn [length]; lia.
Qed.

Lemma filter_length_snoc {A : Type} (P : A → Prop) `{∀ x, Decision (P x)}
    (l : list A) (x : A) :
  length (filter P (l ++ [x])%list)
  = (length (filter P l) + (if decide (P x) then 1 else 0))%nat.
Proof.
  rewrite filter_app, length_app, filter_cons, filter_nil.
  destruct (decide (P x)); reflexivity.
Qed.

Section Run.

Variable page_fetcher_fetch : list string → string → result (option string).
Variable extract_links : string → list string.
Variable robots_parse : string → option (string → bool).

#[local] Abbreviation wstep := (wstep page_fetcher_fetch extract_links robots_parse).
#[local] Abbreviation step := (step page_fetcher_fetch extract_links robots_parse).
#[local] Abbreviation can_crawl := (can_crawl robots_parse).

(** The steps of a worker, one by one. *)
Lemma wstep_cases (st st' : CrawlerManager) (p p' : pc) :
  wstep st p = Some (st', p') →
  (p = AtTest ∧ st' = st ∧
   ((url_queue st = [] ∧ p' = Exited) ∨ (url_queue st ≠ [] ∧ p' = AtGet))) ∨
  (p = AtGet ∧ ∃ u q, url_queue st = u :: q ∧ st' = set_queue st q ∧ p' = AtCrawl u) ∨
  (∃ u, p = AtCrawl u ∧
        ((can_crawl u = false ∧ st' = st ∧ p' = AtTest) ∨
         (can_crawl u = true ∧ st' = log st (Fetch u) ∧
          (p' = AtTest ∨ ∃ l, p' = AtMark u l)))) ∨
  (∃ u l, p = AtMark u l ∧ p' = AtLinks l ∧
          (st' = st ∨
           st' = log (mkCrawlerManager (url_queue st) ({[u]} ∪ crawled_urls st) (events st))
                     (Mark u))) ∨
  (p = AtLinks [] ∧ st' = st ∧ p' = AtTest) ∨
  (∃ u l, p = AtLinks (u :: l) ∧ p' = AtLinks l ∧ (st' = st ∨ st' = put st u)).
Proof.
  destruct p as [| |url|url new_urls|[|new_url rest]|]; cbn [crawler_manager.wstep].
  - destruct (url_queue st) eqn:E; intros [= <- <-]; left;
      (split; [reflexivity|]); (split; [reflexivity|]).
    + left. auto.
    + right. split; [discriminate | reflexivity].
  - destruct (url_queue st) as [|u q] eqn:E; [discriminate|]. intros [= <- <-].
    right. left. eauto 6.
  - destruct (crawler_manager.can_crawl robots_parse url) eqn:Hc.
    + destruct (page_fetcher_fetch (fetched st) url) as [[page|]|e];
        [destruct (Py.truthy page)|..]; intros [= <- <-];
        right; right; left; exists url; (split; [reflexivity|]); right;
        (split; [exact Hc|]); (split; [reflexivity|]); eauto.
    + intros [= <- <-]. right. right. left. exists url. auto.
  - intros [= <- <-]. right. right. right. left. exists url, new_urls.
    split; [reflexivity|]. split; [reflexivity|]. unfold mark.
    destruct (bool_decide (url ∈ crawled_urls st)); auto.
  - intros [= <- <-]. do 4 right. left. auto.
  - destruct (bool_decide (new_url ∈ crawled_urls st)); intros [= <- <-];
      do 5 right; exists new_url, rest; auto.
  - discriminate.
Qed.

Lemma counts_log (u : string) (st : CrawlerManager) (e : event) :
  fetch_count u (log st e)
    = (fetch_count u st + (if decide (e = Fetch u) then 1 else 0))%nat ∧
  put_count u (log st e)
    = (put_count u st + (if decide (e = Put u) then 1 else 0))%nat ∧
  queued u (log st e) = queued u st.
Proof.
  unfold fetch_count, put_count, queued, log. cbn [events url_queue].
  rewrite !filter_length_snoc. auto.
Qed.

Lemma counts_set_queue (u : string) (st : CrawlerManager) (q : list string) :
  fetch_count u (set_queue st q) = fetch_count u st ∧
  put_count u (set_queue st q) = put_count u st ∧
  queued u (set_queue st q) = length (filter (λ v, v = u) q).
Proof. auto. Qed.

Lemma counts_init (u : string) (start_urls : list string) :
  fetch_count u (init start_urls) = 0%nat ∧
  put_count u (init start_urls) = queued u (init start_urls).
Proof.
  destruct (ManagerFacts.init_spec start_urls) as (Hq & _ & He).
  unfold fetch_count, put_count, queued. rewrite Hq, He. clear Hq He.
  induction start_urls as [|v l [IH1 IH2]]; [auto|].
  cbn [map]. rewrite !filter_cons.
  destruct (decide (Put v = Fetch u)) as [E|_]; [discriminate|].
  split; [exact IH1|].
  destruct (decide (Put v = Put u)) as [E|E], (decide (v = u)) as [E'|E'];
    cbn [length]; try congruence.
Qed.

Lemma holders_replicate (u : string) (n : nat) (p : pc) :
  p ≠ AtCrawl u → holders u (replicate n p) = 0%nat.
Proof.
  intros Hp. unfold holders. induction n as [|n IH]; [reflexivity|].
  cbn [replicate]. rewrite filter_cons.
  destruct (decide (p = AtCrawl u)); [contradiction | exact IH].
Qed.

Lemma holders_exited (u : string) (ps : list pc) :
  Forall (λ p, p = Exited) ps → holders u ps = 0%nat.
Proof.
  unfold holders. induction 1 as [|p ps Hp _ IH]; [reflexivity|].
  rewrite filter_cons. subst p.
  destruct (decide (Exited = AtCrawl u)); [discriminate | exact IH].
Qed.

(** Every copy of a URL put on the queue is waiting, held by a worker,
    fetched, or was refused by the robots rules. *)
Lemma accounted_step (u : string) (sys sys' : system) :
  step sys sys' →
  ((accounted u sys ≤ put_count u sys.1)%nat ∧
   (can_crawl u = true → accounted u sys = put_count u sys.1)) →
  (accounted u sys' ≤ put_count u sys'.1)%nat ∧
  (can_crawl u = true → accounted u sys' = put_count u sys'.1).
Proof.
  intros [st st' ps i p p' Hi Hw]. unfold accounted. cbn [fst snd].
  pose proof (filter_length_insert (λ q, q = AtCrawl u) ps i p p' Hi) as Hh.
  fold (holders u (<[i := p']> ps)) in Hh. fold (holders u ps) in Hh.
  destruct (wstep_cases st st' p p' Hw)
    as [(-> & -> & Hp') | [(-> & v & q & Hq & -> & ->) | [(v & -> & Hv) |
       [(v & l & -> & -> & Hst) | [(-> & -> & ->) | (v & l & -> & -> & Hst)]]]]].
  - assert (Hp'' : p' ≠ AtCrawl u) by (destruct Hp' as [[_ ->] | [_ ->]]; discriminate).
    destruct (decide (AtTest = AtCrawl u)); [discriminate|].
    destruct (decide (p' = AtCrawl u)); [contradiction|].
    intros [Ha Hb]. split; [lia | intros Hc; specialize (Hb Hc); lia].
  - destruct (counts_set_queue u st q) as (-> & -> & ->).
    unfold queued at 1 2. rewrite Hq, filter_cons.
    destruct (decide (AtGet = AtCrawl u)); [discriminate|].
    destruct (decide (AtCrawl v = AtCrawl u)) as [E|E], (decide (v = u)) as [E'|E'];
      try congruence; cbn [length];
      intros [Ha Hb]; (split; [lia | intros Hc; specialize (Hb Hc); lia]).
  - destruct Hv as [(Hc & -> & ->) | (Hc & -> & Hp')].
    + destruct (decide (AtTest = AtCrawl u)); [discriminate|].
      destruct (decide (AtCrawl v = AtCrawl u)) as [E|E].
      * injection E as ->. intros [Ha _]. split; [lia | congruence].
      * intros [Ha Hb]. split; [lia | intros Hc'; specialize (Hb Hc'); lia].
    + destruct (counts_log u st (Fetch v)) as (-> & -> & ->).
      assert (Hp'' : p' ≠ AtCrawl u) by (destruct Hp' as [-> | [l ->]]; discriminate).
      destruct (decide (p' = AtCrawl u)); [contradiction|].
      destruct (decide (Fetch v = Put u)); [discriminate|].
      destruct (decide (AtCrawl v = AtCrawl u)) as [E|E],
               (decide (Fetch v = Fetch u)) as [E'|E']; try congruence;
        intros [Ha Hb]; (split; [lia | intros Hc'; specialize (Hb Hc'); lia]).
  - destruct (decide (AtMark v l = AtCrawl u)); [discriminate|].
    destruct (decide (AtLinks l = AtCrawl u)); [discriminate|].
    destruct Hst as [-> | ->].
    + intros [Ha Hb]. split; [lia | intros Hc; specialize (Hb Hc); lia].
    + destruct (counts_log u
                  (mkCrawlerManager (url_queue st) ({[v]} ∪ crawled_urls st) (events st))
                  (Mark v)) as (-> & -> & ->).
      destruct (decide (Mark v = Fetch u)); [discriminate|].
      destruct (decide (Mark v = Put u)); [discriminate|].
      change (fetch_count u (mkCrawlerManager (url_queue st) ({[v]} ∪ crawled_urls st)
                               (events st))) with (fetch_count u st).
      change (put_count u (mkCrawlerManager (url_queue st) ({[v]} ∪ crawled_urls st)
                             (events st))) with (put_count u st).
      change (queued u (mkCrawlerManager (url_queue st) ({[v]} ∪ crawled_urls st)
                          (events st))) with (queued u st).
      intros [Ha Hb]. split; [lia | intros Hc; specialize (Hb Hc); lia].
  - destruct (decide (AtLinks [] = AtCrawl u)); [discriminate|].
    destruct (decide (AtTest = AtCrawl u)); [discriminate|].
    intros [Ha Hb]. split; [lia | intros Hc; specialize (Hb Hc); lia].
  - destruct (decide (AtLinks (v :: l) = AtCrawl u)); [discriminate|].
    destruct (decide (AtLinks l = AtCrawl u)); [discriminate|].
    destruct Hst as [-> | ->].
    + intros [Ha Hb]. split; [lia | intros Hc; specialize (Hb Hc); lia].
    + unfold put.
      destruct (counts_log u (set_queue st (url_queue st ++ [v])%list) (Put v))
        as (-> & -> & ->).
      destruct (counts_set_queue u st (url_queue st ++ [v])%list) as (-> & -> & ->).
      rewrite filter_length_snoc. fold (queued u st).
      destruct (decide (Put v = Fetch u)); [discriminate|].
      destruct (decide (Put v = Put u)) as [E|E], (decide (v = u)) as [E'|E'];
        try congruence;
        intros [Ha Hb]; (split; [lia | intros Hc; specialize (Hb Hc); lia]).
Qed.

Lemma accounted_reachable (u : string) (start_urls : list string) (max_workers : nat)
    (sys : system) :
  rtc step (start_crawl start_urls max_workers) sys →
  (accounted u sys ≤ put_count u sys.1)%nat ∧
  (can_crawl u = true → accounted u sys = put_count u sys.1).
Proof.
  intros H.
  refine (rtc_ind_r (R := step)
            (λ s, (accounted u s ≤ put_count u s.1)%nat ∧
                  (can_crawl u = true → accounted u s = put_count u s.1))
            (start_crawl start_urls max_workers) _ _ sys H).
  - unfold accounted, start_crawl. cbn [fst snd].
    destruct (counts_init u start_urls) as [-> ->].
    rewrite holders_replicate by discriminate. split; [lia | intros _; lia].
  - intros y z _ Hyz Hy. exact (accounted_step u y z Hyz Hy).
Qed.

Lemma drained_reachable (start_urls : list string) (max_workers : nat) (sys : system) :
  (0 < max_workers)%nat →
  rtc step (start_crawl start_urls max_workers) sys → drained sys.
Proof.
  intros Hn H.
  refine (rtc_ind_r (R := step) (λ s, drained s)
            (start_crawl start_urls max_workers) _ _ sys H).
  - left. exists AtTest. split; [|discriminate].
    unfold start_crawl. cbn [snd]. apply elem_of_replicate. split; [reflexivity | lia].
  - intros y z _ Hyz _. destruct Hyz as [st st' ps i p p' Hi Hw].
    assert (Hin : p' ∈ <[i := p']> ps).
    { apply list_elem_of_lookup. exists i. apply list_lookup_insert_eq.
      apply lookup_lt_Some in Hi. exact Hi. }
    destruct (wstep_cases st st' p p' Hw)
      as [(-> & -> & [[Hq ->] | [_ ->]]) | [(-> & v & q & Hq & -> & ->) | [(v & -> & Hv) |
         [(v & l & -> & -> & Hst) | [(-> & -> & ->) | (v & l & -> & -> & Hst)]]]]].
    + right. exact Hq.
    + left. exists AtGet. split; [exact Hin | discriminate].
    + left. exists (AtCrawl v). split; [exact Hin | discriminate].
    + left. exists p'. split; [exact Hin|].
      destruct Hv as [(_ & _ & ->) | (_ & _ & [-> | [l ->]])]; discriminate.
    + left. exists (AtLinks l). split; [exact Hin | discriminate].
    + left. exists AtTest. split; [exact Hin | discriminate].
    + left. exists (AtLinks l). split; [exact Hin | discriminate].
Qed.




(** A worker that calls [get] only on a non-empty queue never blocks. *)
Lemma worker_not_blocked (st' : CrawlerManager) :
  ∀ fuel st p, (p = AtGet → url_queue st ≠ []) →
               run_worker page_fetcher_fetch extract_links robots_parse fuel st p
               ≠ Blocked st'.
Proof.
  induction fuel as [|fuel IH]; intros st p Hp; [discriminate|].
  cbn [crawler_manager.run_worker].
  destruct (crawler_manager.wstep page_fetcher_fetch extract_links robots_parse st p)
    as [[st1 p1]|] eqn:Hw.
  - assert (H1 : p1 = AtGet → url_queue st1 ≠ []).
    { intros ->.
      destruct (wstep_cases st st1 p AtGet Hw)
        as [(_ & -> & [[_ E] | [Hq _]]) | [(_ & ? & ? & _ & _ & E) | [(? & _ & Hv) |
           [(? & ? & _ & E & _) | [(_ & _ & E) | (? & ? & _ & E & _)]]]]];
        try discriminate; [exact Hq|].
      destruct Hv as [(_ & _ & E) | (_ & _ & [E | [? E]])]; discriminate. }
    destruct p; try (apply IH; exact H1). discriminate.
  - destruct p as [| |v|v l|[|v l]|]; cbn [crawler_manager.wstep] in Hw;
      try discriminate.
    + destruct (url_queue st); discriminate.
    + destruct (url_queue st) eqn:E; [|discriminate].
      destruct (Hp eq_refl). reflexivity.
    + destruct (crawler_manager.can_crawl robots_parse v);
        [destruct (page_fetcher_fetch (fetched st) v) as [[page|]|e];
         [destruct (Py.truthy page)|..]|]; discriminate.
    + destruct (bool_decide (v ∈ crawled_urls st)); discriminate.
Qed.


End Run.




End ManagerMore.

(** ** The [Crawler] class of [robots_parser.py] *)

Module CrawlerFacts.

Import robots_crawler CrawlerAux.

Lemma pop_first_ok : pop_ok pop_first.
Proof.
  intros k s Hs. unfold pop_first.
  destruct (elements s) as [|x l] eqn:E.
  - apply elements_empty_inv in E. apply leibniz_equiv in E. contradiction.
  - cbn. apply elem_of_elements. rewrite E. left.
Qed.

Section Crawler.

Variable net : Net.
Variable lib : UrlLib.
Variable urljoin : string → string → string.
Variable hrefs : string → list string.
Variable set_pop : nat → gset string → string.

#[local] Abbreviation extract_links := (extract_links lib urljoin hrefs).
#[local] Abbreviation record_page := (record_page lib urljoin hrefs).
#[local] Abbreviation crawl_request := (crawl_request net lib urljoin hrefs).
#[local] Abbreviation crawl := (crawl net lib urljoin hrefs).
#[local] Abbreviation crawl_pages := (crawl_pages net lib urljoin hrefs set_pop).
#[local] Abbreviation start_crawling := (start_crawling net lib urljoin hrefs set_pop).
#[local] Abbreviation is_allowed := (robots_parser.is_allowed lib).

Lemma extract_links_host (self : Crawler) (content page_url u : string) :
  u ∈ extract_links self content page_url →
  url_netloc lib u = url_netloc lib (base_url self).
Proof.
  unfold robots_crawler.extract_links. intros H.
  apply elem_of_list_to_set in H. apply list_elem_of_filter in H as [H _]. exact H.
Qed.

Lemma crawl_request_spec (self : Crawler) (url : string) (w : World) :
  ∃ self', crawl_request self url w = ((self', Ok tt), (http_get net url w).2) ∧
           (self' = self ∨ ∃ content, self' = record_page self url content).
Proof.
  unfold robots_crawler.crawl_request, mbind, IO_bind, http_get. cbn [snd].
  destruct (net w url) as [status content| | |].
  - destruct (status =? 200); eexists; (split; [reflexivity|]); eauto.
  - eexists; (split; [reflexivity|]); eauto.
  - eexists; (split; [reflexivity|]); eauto.
  - eexists; (split; [reflexivity|]); eauto.
Qed.

(** One call of [crawl]: nothing happens, or one request is made, after
    the crawl delay when there is one. *)
Lemma crawl_spec (self : Crawler) (url : string) (w : World)
    (self' : Crawler) (r : result unit) (w' : World) :
  crawl self url w = ((self', r), w') →
  (self' = self ∧ w' = w ∧
   (r = Ok tt ∧ is_allowed (robots self) url = Ok false ∨
    (∃ e, r = Raise e) ∧
    (is_allowed (robots self) url = Ok true →
     ∃ d, robots_parser.get_crawl_delay (robots self) = Some d ∧ d < 0 ∧
          r = Raise ValueError))) ∨
  (is_allowed (robots self) url = Ok true ∧ r = Ok tt ∧
   (self' = self ∨ ∃ content, self' = record_page self url content) ∧
   ∃ w1, w' = (http_get net url w1).2 ∧
         ((w1 = w ∧ (robots_parser.get_crawl_delay (robots self) = None ∨
                     robots_parser.get_crawl_delay (robots self) = Some 0)) ∨
          (∃ d, robots_parser.get_crawl_delay (robots self) = Some d ∧ 0 < d ∧
                w1 = (time_sleep d w).2))).
Proof.
  unfold robots_crawler.crawl.
  destruct (is_allowed (robots self) url) as [[|]|e] eqn:Ha.
  - destruct (robots_parser.get_crawl_delay (robots self)) as [d|] eqn:Hd.
    + destruct (d =? 0) eqn:E0.
      * apply Z.eqb_eq in E0 as ->.
        destruct (crawl_request_spec self url w) as (s1 & -> & Hs).
        intros [= <- <- <-]. right. split; [reflexivity|]. split; [reflexivity|].
        split; [exact Hs|]. exists w. split; [reflexivity|]. left. auto.
      * apply Z.eqb_neq in E0. destruct (d <? 0) eqn:E1.
        -- apply Z.ltb_lt in E1. intros [= <- <- <-]. left.
           split; [reflexivity|]. split; [reflexivity|]. right.
           split; [eauto|]. intros _. exists d. auto.
        -- apply Z.ltb_ge in E1. unfold mbind, IO_bind.
           destruct (time_sleep d w) as [[] w1] eqn:Es.
           destruct (crawl_request_spec self url w1) as (s1 & -> & Hs).
           intros [= <- <- <-]. right. split; [reflexivity|]. split; [reflexivity|].
           split; [exact Hs|]. exists w1. split; [reflexivity|]. right.
           exists d. split; [reflexivity|]. split; [lia|]. rewrite Es. reflexivity.
    + destruct (crawl_request_spec self url w) as (s1 & -> & Hs).
      intros [= <- <- <-]. right. split; [reflexivity|]. split; [reflexivity|].
      split; [exact Hs|]. exists w. split; [reflexivity|]. left. auto.
  - intros [= <- <- <-]. left. auto.
  - intros [= <- <- <-]. left. split; [reflexivity|]. split; [reflexivity|]. right.
    split; [eauto|]. discriminate.
Qed.

(** One iteration of the loop of [start_crawling]. *)
Lemma crawl_pages_S (fuel k : nat) (self : Crawler) (pc max_pages : Z) (w : World) :
  crawl_pages (S fuel) k self pc max_pages w =
  if bool_decide (to_crawl self = ∅) || negb (pc <? max_pages)
  then (Some (self, Ok pc), w)
  else
    let url := set_pop k (to_crawl self) in
    let self1 := set_to_crawl self (to_crawl self ∖ {[url]}) in
    if bool_decide (url ∈ visited_urls self)
    then crawl_pages fuel (S k) self1 pc max_pages w
    else
      match crawl self1 url w with
      | ((self', Ok _), w') => crawl_pages fuel (S k) self' (pc + 1) max_pages w'
      | ((self', Raise e), w') => (Some (self', Raise e), w')
      end.
Proof.
  cbn [robots_crawler.crawl_pages].
  destruct (bool_decide (to_crawl self = ∅) || negb (pc <? max_pages)); [reflexivity|].
  cbn [set_to_crawl visited_urls].
  destruct (bool_decide (set_pop k (to_crawl self) ∈ visited_urls self)); [reflexivity|].
  unfold mbind, IO_bind.
  destruct (robots_crawler.crawl net lib urljoin hrefs _ _ w) as [[s1 [[]|e]] w1];
    reflexivity.
Qed.

Lemma loop_goes_on (self : Crawler) (pc max_pages : Z) :
  bool_decide (to_crawl self = ∅) || negb (pc <? max_pages) = false →
  to_crawl self ≠ ∅ ∧ pc < max_pages.
Proof.
  intros H. apply orb_false_iff in H as [H1 H2].
  apply bool_decide_eq_false in H1. apply negb_false_iff in H2.
  apply Z.ltb_lt in H2. auto.
Qed.

Lemma loop_ends (self : Crawler) (pc max_pages : Z) :
  bool_decide (to_crawl self = ∅) || negb (pc <? max_pages) = true →
  to_crawl self = ∅ ∨ max_pages ≤ pc.
Proof.
  intros H. apply orb_true_iff in H as [H | H].
  - left. apply bool_decide_eq_true in H. exact H.
  - right. apply negb_true_iff in H. apply Z.ltb_ge in H. exact H.
Qed.

Lemma requested_urls_get (url : string) (w : World) :
  requested_urls (http_get net url w).2 = (requested_urls w ++ [url])%list.
Proof. unfold requested_urls, http_get. cbn [snd requested]. rewrite fmap_app. reflexivity. Qed.

(** What a run of the loop does, [pc] pages having been counted. *)
Lemma crawl_pages_spec (max_pages : Z) :
  pop_ok set_pop →
  ∀ (fuel k : nat) (self : Crawler) (pc : Z) (w : World)
    (self' : Crawler) (r : result Z) (w' : World),
    crawl_pages fuel k self pc max_pages w = (Some (self', r), w') →
    ∃ new : list string,
      requested_urls w' = (requested_urls w ++ new)%list ∧
      (length new ≤ Z.to_nat (max_pages - pc))%nat ∧
      (∀ u, u ∈ new →
            is_allowed (robots self) u = Ok true ∧ (u ∉ visited_urls self) ∧
            (u ∈ to_crawl self ∨ url_netloc lib u = url_netloc lib (base_url self))) ∧
      visited_urls self ⊆ visited_urls self' ∧
      (∀ u, u ∈ visited_urls self' → u ∈ visited_urls self ∨ u ∈ new) ∧
      robots self' = robots self ∧ base_url self' = base_url self ∧
      (∀ n, r = Ok n →
            pc ≤ n ∧ n ≤ Z.max pc max_pages ∧ Z.of_nat (length new) ≤ n - pc ∧
            (to_crawl self' = ∅ ∨ max_pages ≤ n)).
Proof.
  intros Hpop. induction fuel as [|fuel IH]; intros k self pc w self' r w' H;
    [discriminate|].
  rewrite crawl_pages_S in H.
  destruct (bool_decide (to_crawl self = ∅) || negb (pc <? max_pages)) eqn:Hc.
  { injection H as <- <- <-. apply loop_ends in Hc. exists [].
    rewrite app_nil_r. split; [reflexivity|]. split; [cbn; lia|].
    split; [intros u Hu; inversion Hu|]. split; [reflexivity|].
    split; [auto|]. split; [reflexivity|]. split; [reflexivity|].
    intros n [= <-]. cbn [length]. destruct Hc; repeat split; auto; lia. }
  apply loop_goes_on in Hc as [Hne Hlt].
  pose proof (Hpop k (to_crawl self) Hne) as Hin.
  cbv zeta in H. set (url := set_pop k (to_crawl self)) in *.
  set (self1 := set_to_crawl self (to_crawl self ∖ {[url]})) in *.
  assert (Hsub : ∀ u, u ∈ to_crawl self1 → u ∈ to_crawl self).
  { intros u Hu. apply elem_of_difference in Hu as [Hu _]. exact Hu. }
  destruct (bool_decide (url ∈ visited_urls self)) eqn:Hv.
  { destruct (IH _ _ _ _ _ _ _ H) as (new & H1 & H2 & H3 & H4 & H5 & H6 & H7 & H8).
    exists new. split; [exact H1|]. split; [exact H2|].
    split; [|split; [exact H4|split; [exact H5|split; [exact H6|split; [exact H7|exact H8]]]]].
    intros u Hu. destruct (H3 u Hu) as (A & B & [C | C]); auto. }
  apply bool_decide_eq_false in Hv.
  destruct (robots_crawler.crawl net lib urljoin hrefs self1 url w) as [[self2 r2] w2] eqn:Hcr.
  destruct (crawl_spec self1 url w self2 r2 w2 Hcr)
    as [(-> & -> & Hr) | (Ha & -> & Hs & w1 & -> & Hw1)].
  - (* no request *)
    destruct r2 as [[]|e].
    + destruct (IH _ _ _ _ _ _ _ H) as (new & H1 & H2 & H3 & H4 & H5 & H6 & H7 & H8).
      exists new. split; [exact H1|]. split; [lia|].
      split; [|split; [exact H4|split; [exact H5|split; [exact H6|split; [exact H7|]]]]].
      * intros u Hu. destruct (H3 u Hu) as (A & B & [C | C]); auto.
      * intros n Hn. destruct (H8 n Hn) as (A & B & C & D). repeat split; auto; lia.
    + injection H as <- <- <-. exists []. rewrite app_nil_r.
      split; [reflexivity|]. split; [cbn; lia|].
      split; [intros u Hu; inversion Hu|]. split; [reflexivity|].
      split; [auto|]. split; [reflexivity|]. split; [reflexivity|]. discriminate.
  - (* one request *)
    assert (Hreq : requested_urls (http_get net url w1).2 = (requested_urls w ++ [url])%list).
    { rewrite requested_urls_get.
      destruct Hw1 as [[-> _] | (d & _ & _ & ->)]; reflexivity. }
    destruct (IH _ _ _ _ _ _ _ H) as (new & H1 & H2 & H3 & H4 & H5 & H6 & H7 & H8).
    assert (Hvis : visited_urls self ⊆ visited_urls self2).
    { destruct Hs as [-> | [content ->]]; [reflexivity|].
      cbn [robots_crawler.record_page visited_urls self1 set_to_crawl].
      apply union_subseteq_r. }
    assert (Hvis' : ∀ u, u ∈ visited_urls self2 → u = url ∨ u ∈ visited_urls self).
    { destruct Hs as [-> | [content ->]]; [auto|].
      cbn [robots_crawler.record_page visited_urls self1 set_to_crawl].
      intros u Hu. apply elem_of_union in Hu as [Hu | Hu]; [|auto].
      apply elem_of_singleton in Hu. auto. }
    assert (Hrob : robots self2 = robots self ∧ base_url self2 = base_url self).
    { destruct Hs as [-> | [content ->]]; auto. }
    assert (Hto : ∀ u, u ∈ to_crawl self2 →
                       u ∈ to_crawl self ∨ url_netloc lib u = url_netloc lib (base_url self)).
    { destruct Hs as [-> | [content ->]]; [auto|].
      cbn [robots_crawler.record_page to_crawl].
      intros u Hu. apply elem_of_difference in Hu as [Hu _].
      apply elem_of_union in Hu as [Hu | Hu]; [auto|].
      right. exact (extract_links_host self1 content url u Hu). }
    destruct Hrob as [Hrob Hbase].
    exists (url :: new). rewrite H1, Hreq, <- app_assoc. split; [reflexivity|].
    split; [cbn [length]; lia|].
    split; [|split; [etrans; eassumption|split; [|split; [congruence|split; [congruence|]]]]].
    + intros u Hu. apply elem_of_cons in Hu as [-> | Hu].
      * split; [exact Ha|]. split; [exact Hv|]. left. exact Hin.
      * destruct (H3 u Hu) as (A & B & C). rewrite Hrob in A. split; [exact A|].
        split; [intros Hc; apply B, Hvis, Hc|].
        destruct C as [C | C]; [apply Hto, C | right; rewrite C, Hbase; reflexivity].
    + intros u Hu. destruct (H5 u Hu) as [Hu' | Hu'].
      * destruct (Hvis' u Hu') as [-> | Hu'']; [right; left | left; exact Hu''].
      * right. right. exact Hu'.
    + intros n Hn. destruct (H8 n Hn) as (A & B & C & D). cbn [length].
      repeat split; auto; lia.
Qed.

(** X16.  What [Crawler.start_crawling] requests.  Whatever the site
    answers and whichever elements [set.pop] picks, the call makes at
    most [max_pages] requests, and every URL it requests is allowed by
    the robots rules the crawler holds, was not yet visited when the
    call began, and is the initial URL, a URL that was already waiting
    in [to_crawl], or a URL on the host of [base_url]. *)
Theorem start_crawling_requests (fuel : nat) (self : Crawler)
    (initial_url : option string) (max_pages : Z) (w : World)
    (self' : Crawler) (r : result Z) (w' : World) :
  pop_ok set_pop →
  start_crawling fuel self initial_url max_pages w = (Some (self', r), w') →
  ∃ new : list string,
    requested_urls w' = (requested_urls w ++ new)%list ∧
    (length new ≤ Z.to_nat max_pages)%nat ∧
    ∀ u, u ∈ new →
         is_allowed (robots self) u = Ok true ∧
         (u ∉ visited_urls self) ∧
         (u = default (base_url self) initial_url ∨ u ∈ to_crawl self ∨
          url_netloc lib u = url_netloc lib (base_url self)).
Proof.
  intros Hpop H. unfold robots_crawler.start_crawling in H.
  destruct (crawl_pages_spec max_pages Hpop _ _ _ _ _ _ _ _ H)
    as (new & H1 & H2 & H3 & _).
  exists new. split; [exact H1|]. split; [rewrite Z.sub_0_r in H2; exact H2|].
  intros u Hu. destruct (H3 u Hu) as (A & B & C). split; [exact A|]. split; [exact B|].
  destruct C as [C | C]; [|auto].
  cbn [set_to_crawl to_crawl] in C. apply elem_of_union in C as [C | C]; [|auto].
  apply elem_of_singleton in C. auto.
Qed.

(** X17.  What [Crawler.start_crawling] leaves behind.  The visited set
    only grows, and only by URLs requested during the call; the robots
    rules and the base URL are untouched; and when the call returns
    with [n] pages counted, [0 ≤ n ≤ max(0, max_pages)], at most [n]
    requests were made, and either nothing is left in [to_crawl] or
    the page budget is spent. *)
Theorem start_crawling_result (fuel : nat) (self : Crawler)
    (initial_url : option string) (max_pages : Z) (w : World)
    (self' : Crawler) (r : result Z) (w' : World) :
  pop_ok set_pop →
  start_crawling fuel self initial_url max_pages w = (Some (self', r), w') →
  visited_urls self ⊆ visited_urls self' ∧
  (∀ u, u ∈ visited_urls self' →
        u ∈ visited_urls self ∨
        u ∈ drop (length (requested_urls w)) (requested_urls w')) ∧
  robots self' = robots self ∧ base_url self' = base_url self ∧
  (∀ n, r = Ok n →
        0 ≤ n ≤ Z.max 0 max_pages ∧
        Z.of_nat (length (requested_urls w')) ≤ Z.of_nat (length (requested_urls w)) + n ∧
        (to_crawl self' = ∅ ∨ max_pages ≤ n)).
Proof.
  intros Hpop H. unfold robots_crawler.start_crawling in H.
  destruct (crawl_pages_spec max_pages Hpop _ _ _ _ _ _ _ _ H)
    as (new & H1 & _ & _ & H4 & H5 & H6 & H7 & H8).
  split; [exact H4|]. split; [|split; [exact H6|split; [exact H7|]]].
  - intros u Hu. rewrite H1, drop_app_length. exact (H5 u Hu).
  - intros n Hn. destruct (H8 n Hn) as (A & B & C & D).
    rewrite H1, length_app. repeat split; auto; lia.
Qed.

(** The loop ends: lexicographically, the page budget left and the size
    of [to_crawl]. *)
Lemma crawl_pages_halts (max_pages : Z) :
  pop_ok set_pop →
  ∀ (n m k : nat) (self : Crawler) (pc : Z) (w : World),
    (Z.to_nat (max_pages - pc) ≤ n)%nat → (size (to_crawl self) ≤ m)%nat →
    ∃ fuel res, (crawl_pages fuel k self pc max_pages w).1 = Some res.
Proof.
  intros Hpop. induction n as [|n IHn].
  - intros m k self pc w Hn _. exists 1%nat. rewrite crawl_pages_S.
    replace (pc <? max_pages) with false by (symmetry; apply Z.ltb_ge; lia).
    rewrite orb_true_r. eauto.
  - induction m as [|m IHm]; intros k self pc w Hn Hm.
    + exists 1%nat. rewrite crawl_pages_S.
      assert (E : to_crawl self = ∅).
      { apply leibniz_equiv, size_empty_inv. lia. }
      rewrite (bool_decide_eq_true_2 _ E). eauto.
    + destruct (bool_decide (to_crawl self = ∅) || negb (pc <? max_pages)) eqn:Hc.
      { exists 1%nat. rewrite crawl_pages_S, Hc. eauto. }
      pose proof Hc as Hc'. apply loop_goes_on in Hc' as [Hne Hlt].
      pose proof (Hpop k (to_crawl self) Hne) as Hin.
      set (url := set_pop k (to_crawl self)) in *.
      set (self1 := set_to_crawl self (to_crawl self ∖ {[url]})).
      assert (Hsz : (size (to_crawl self1) ≤ m)%nat).
      { cbn [self1 set_to_crawl to_crawl].
        assert (size (to_crawl self ∖ {[url]}) < size (to_crawl self))%nat; [|lia].
        apply subset_size. split.
        - intros x Hx. apply elem_of_difference in Hx as [Hx _]. exact Hx.
        - intros Hs. apply Hs in Hin. apply elem_of_difference in Hin as [_ Hin].
          apply Hin. apply elem_of_singleton. reflexivity. }
      destruct (bool_decide (url ∈ visited_urls self)) eqn:Hv.
      * destruct (IHm (S k) self1 pc w Hn Hsz) as (fuel & res & Hf).
        exists (S fuel), res. rewrite crawl_pages_S, Hc. cbv zeta.
        fold url. rewrite Hv. exact Hf.
      * destruct (robots_crawler.crawl net lib urljoin hrefs self1 url w)
          as [[self2 [[]|e]] w2] eqn:Hcr.
        -- destruct (IHn (size (to_crawl self2)) (S k) self2 (pc + 1) w2)
             as (fuel & res & Hf); [lia | lia |].
           exists (S fuel), res. rewrite crawl_pages_S, Hc. cbv zeta.
           fold url. rewrite Hv. fold self1. rewrite Hcr. exact Hf.
        -- exists 1%nat. eexists. rewrite crawl_pages_S, Hc. cbv zeta.
           fold url. rewrite Hv. fold self1. rewrite Hcr. reflexivity.
Qed.

(** X18.  [Crawler.start_crawling] terminates: whatever the site
    answers, and also on a site with endlessly many pages, the loop
    ends after finitely many iterations, because every iteration
    either counts a page against [max_pages] or takes a URL out of
    [to_crawl] without putting one in. *)
Theorem start_crawling_terminates (self : Crawler) (initial_url : option string)
    (max_pages : Z) (w : World) :
  pop_ok set_pop →
  ∃ (fuel : nat) (res : Crawler * result Z),
    (start_crawling fuel self initial_url max_pages w).1 = Some res.
Proof.
  intros Hpop. unfold robots_crawler.start_crawling.
  eapply (crawl_pages_halts max_pages Hpop); [rewrite Z.sub_0_r|]; reflexivity.
Qed.

(** The loop under a positive crawl delay [d]. *)
Lemma crawl_pages_timed (d max_pages : Z) :
  0 < d →
  ∀ (fuel k : nat) (self : Crawler) (pc : Z) (w : World)
    (self' : Crawler) (r : result Z) (w' : World),
    robots_parser.get_crawl_delay (robots self) = Some d →
    crawl_pages fuel k self pc max_pages w = (Some (self', r), w') →
    ∃ new : list (Z * string),
      requested w' = (requested w ++ new)%list ∧
      slept w' = (slept w ++ replicate (length new) d)%list ∧
      clock w' = clock w + d * Z.of_nat (length new) ∧
      ∀ (i : nat) t u, new !! i = Some (t, u) → t = clock w + d * (Z.of_nat i + 1).
Proof.
  intros Hd. induction fuel as [|fuel IH]; intros k self pc w self' r w' Hdel H;
    [discriminate|].
  assert (Hnil : ∃ new : list (Z * string),
             requested w = (requested w ++ new)%list ∧
             slept w = (slept w ++ replicate (length new) d)%list ∧
             clock w = clock w + d * Z.of_nat (length new) ∧
             ∀ (i : nat) t u, new !! i = Some (t, u) → t = clock w + d * (Z.of_nat i + 1)).
  { exists []. rewrite !app_nil_r. cbn. repeat split; [lia | discriminate]. }
  rewrite crawl_pages_S in H.
  destruct (bool_decide (to_crawl self = ∅) || negb (pc <? max_pages)).
  { injection H as <- <- <-. exact Hnil. }
  cbv zeta in H. set (url := set_pop k (to_crawl self)) in *.
  set (self1 := set_to_crawl self (to_crawl self ∖ {[url]})) in *.
  destruct (bool_decide (url ∈ visited_urls self)).
  { exact (IH _ self1 _ _ _ _ _ Hdel H). }
  destruct (robots_crawler.crawl net lib urljoin hrefs self1 url w) as [[self2 r2] w2] eqn:Hcr.
  destruct (crawl_spec self1 url w self2 r2 w2 Hcr)
    as [(-> & -> & Hr) | (Ha & -> & Hs & w1 & -> & Hw1)].
  - destruct r2 as [[]|e].
    + exact (IH _ self1 _ _ _ _ _ Hdel H).
    + injection H as <- <- <-. exact Hnil.
  - assert (Hdel2 : robots_parser.get_crawl_delay (robots self2) = Some d).
    { destruct Hs as [-> | [content ->]]; exact Hdel. }
    change (robots self1) with (robots self) in Hw1.
    destruct Hw1 as [[_ [Hw1 | Hw1]] | (d' & Hd' & _ & ->)];
      [rewrite Hdel in Hw1; discriminate
      |rewrite Hdel in Hw1; injection Hw1 as ->; lia|].
    rewrite Hdel in Hd'. injection Hd' as <-.
    destruct (IH _ _ _ _ _ _ _ Hdel2 H) as (new & H1 & H2 & H3 & H4).
    cbn [http_get time_sleep snd requested slept clock] in H1, H2, H3, H4.
    exists ((clock w + d, url) :: new).
    rewrite H1, H2, H3, <- !app_assoc. cbn [length replicate].
    split; [reflexivity|]. split; [reflexivity|]. split; [lia|].
    intros [|i] t u Hi.
    * injection Hi as <- <-. cbn. lia.
    * cbn in Hi. rewrite (H4 i t u Hi). lia.
Qed.



End Crawler.

Lemma start_crawling_requests_witness :
  ∃ new : list string,
    requested_urls site_run.2 = (requested_urls (crawler_on net_site).2 ++ new)%list ∧
    (length new ≤ Z.to_nat 10)%nat ∧
    ∀ u, u ∈ new →
         robots_parser.is_allowed Url.simple (robots (crawler_on net_site).1) u = Ok true ∧
         (u ∉ visited_urls (crawler_on net_site).1) ∧
         (u = default (base_url (crawler_on net_site).1) None ∨
          u ∈ to_crawl (crawler_on net_site).1 ∨
          url_netloc Url.simple u = url_netloc Url.simple (base_url (crawler_on net_site).1)).
Proof.
  apply (start_crawling_requests net_site Url.simple urljoin_site hrefs_site pop_first
           10 (crawler_on net_site).1 None 10 (crawler_on net_site).2
           site_end.1 site_end.2 site_run.2).
  - exact pop_first_ok.
  - vm_compute. reflexivity.
Defined.

Lemma start_crawling_result_witness :
  visited_urls (crawler_on net_site).1 ⊆ visited_urls site_end.1 ∧
  (∀ u, u ∈ visited_urls site_end.1 →
        u ∈ visited_urls (crawler_on net_site).1 ∨
        u ∈ drop (length (requested_urls (crawler_on net_site).2))
                 (requested_urls site_run.2)) ∧
  robots site_end.1 = robots (crawler_on net_site).1 ∧
  base_url site_end.1 = base_url (crawler_on net_site).1 ∧
  (∀ n, site_end.2 = Ok n →
        0 ≤ n ≤ Z.max 0 10 ∧
        Z.of_nat (length (requested_urls site_run.2))
        ≤ Z.of_nat (length (requested_urls (crawler_on net_site).2)) + n ∧
        (to_crawl site_end.1 = ∅ ∨ 10 ≤ n)).
Proof.
  apply (start_crawling_result net_site Url.simple urljoin_site hrefs_site pop_first
           10 (crawler_on net_site).1 None 10 (crawler_on net_site).2
           site_end.1 site_end.2 site_run.2).
  - exact pop_first_ok.
  - vm_compute. reflexivity.
Defined.

Lemma start_crawling_terminates_witness :
  ∃ (fuel : nat) (res : Crawler * result Z),
    (start_crawling net_site Url.simple urljoin_site hrefs_site pop_first
       fuel (crawler_on net_site).1 None 10 (crawler_on net_site).2).1 = Some res.
Proof.
  apply (start_crawling_terminates net_site Url.simple urljoin_site hrefs_site pop_first
           (crawler_on net_site).1 None 10 (crawler_on net_site).2).
  exact pop_first_ok.
Defined.



End CrawlerFacts.
